(** * Verification of the console-statement remover and the guest-method splice

    Shallow embedding of [remove_console_logs.py] and
    [backend/extract_guest_method.py].

    Python [str] values are sequences of Unicode code points, so a string is
    a [list N]; Python [int] values are unbounded, so counters that can go
    negative are [Z] and list indices are [nat]. *)

From stdpp Require Import base numbers list strings gmap pretty.
From Equations Require Import Equations.

(** ** Python strings *)

Module Py.

Definition char := N.
Definition str := list char.

(** An ASCII literal as a Python string. *)
Definition lit (s : string) : str := Ascii.N_of_ascii <$> String.list_ascii_of_string s.

Definition NL : char := 10%N.
Definition LPAREN : char := 40%N.
Definition RPAREN : char := 41%N.

(** [s.count(c)] for a one-character [c], as a Python int. *)
Definition count (c : char) (s : str) : Z :=
  Z.of_nat (length (filter (λ x, x = c) s)).

(** [s.split(sep)] for a one-character separator: never empty, and the
    pieces are the maximal runs without [sep]. *)
Fixpoint split (sep : char) (s : str) : list str :=
  match s with
  | [] => [[]]
  | c :: s' =>
      if bool_decide (c = sep) then [] :: split sep s'
      else match split sep s' with
           | piece :: pieces => (c :: piece) :: pieces
           | [] => [[c]]
           end
  end.

(** [sep.join(pieces)] for a one-character separator. *)
Fixpoint join (sep : char) (pieces : list str) : str :=
  match pieces with
  | [] => []
  | [piece] => piece
  | piece :: rest => piece ++ sep :: join sep rest
  end.

(** [s.endswith(suffix)]. *)
Definition endswith (s suffix : str) : bool :=
  bool_decide (drop (length s - length suffix) s = suffix).

(** [xs[lo:hi]] for non-negative [lo] and [hi]: out-of-range bounds are
    clamped, never an error. *)
Definition slice {A} (xs : list A) (lo hi : nat) : list A :=
  take (hi - lo) (drop lo xs).

(** [xs[lo:]]. *)
Definition slice_from {A} (xs : list A) (lo : nat) : list A :=
  slice xs lo (length xs).

(** The characters the [re] module's [\s] accepts in a [str] pattern
    (Py_UNICODE_ISSPACE). *)
Definition isspace (c : char) : bool :=
  ((9 <=? c) && (c <=? 13) || (28 <=? c) && (c <=? 32)
   || (c =? 0x85) || (c =? 0xA0) || (c =? 0x1680)
   || (0x2000 <=? c) && (c <=? 0x200A)
   || (c =? 0x2028) || (c =? 0x2029) || (c =? 0x202F)
   || (c =? 0x205F) || (c =? 0x3000))%N.

End Py.

(** ** The fragment of [re] the script uses *)

Module Re.
Import Py.

Inductive regex :=
| Eps
| Chr (c : char)          (* a literal character *)
| SpaceStar               (* \s* *)
| Seq (r1 r2 : regex)
| Alt (r1 r2 : regex).

(** A literal word, character by character. *)
Fixpoint Lit (s : str) : regex :=
  match s with
  | [] => Eps
  | c :: s' => Seq (Chr c) (Lit s')
  end.

(** Greedy [\s*] with backtracking: take one more space if the rest then
    matches, otherwise stop here. *)
Fixpoint star_space (s : str) (k : str → bool) : bool :=
  match s with
  | c :: s' => isspace c && star_space s' k || k s
  | [] => k []
  end.

(** Backtracking match of [r] at the head of [s]; [k] decides on what is
    left. *)
Fixpoint match_here (r : regex) (s : str) (k : str → bool) : bool :=
  match r with
  | Eps => k s
  | Chr c =>
      match s with
      | c' :: s' => bool_decide (c' = c) && k s'
      | [] => false
      end
  | SpaceStar => star_space s k
  | Seq r1 r2 => match_here r1 s (λ s', match_here r2 s' k)
  | Alt r1 r2 => match_here r1 s k || match_here r2 s k
  end.

(** [re.search(r, s)] as a truth value: a match starting at some
    position of [s], the end of [s] included. *)
Fixpoint search (r : regex) (s : str) : bool :=
  match_here r s (λ _, true)
  || match s with
     | [] => false
     | _ :: s' => search r s'
     end.

End Re.

(** ** remove_console_logs.py *)

Module RemoveConsoleLogs.
Import Py Re.

(** [r'\s*console\.(log|debug|info)\s*\('] *)
Definition console_stmt : regex :=
  Seq SpaceStar
    (Seq (Lit (lit "console"))
       (Seq (Chr 46%N)
          (Seq (Alt (Lit (lit "log")) (Alt (Lit (lit "debug")) (Lit (lit "info"))))
             (Seq SpaceStar (Chr LPAREN))))).

(** The test of the [if] at the head of the outer loop body. *)
Definition is_console_stmt (line : str) : bool := search console_stmt line.

(** [line.count('(') - line.count(')')] *)
Definition paren_delta (line : str) : Z := count LPAREN line - count RPAREN line.

(** [lines[k]]. Both loops read it only under a guard [k < len(lines)],
    so the out-of-range IndexError cannot arise and the default is never
    used. *)
Definition line_at (lines : list str) (k : nat) : str := lines !!! k.

(** The inner [while paren_count > 0 and j < len(lines) - 1] loop; returns
    the final [(paren_count, j)]. [len(lines) - 1] is compared with a
    non-negative [j], so truncated subtraction gives the same test. *)
Equations? inner_while (lines : list str) (paren_count : Z) (j : nat) : Z * nat
  by wf (length lines - j) lt :=
  inner_while lines paren_count j with decide ((0 < paren_count)%Z ∧ j < length lines - 1) := {
    | left _ =>
        let j' := j + 1 in
        let paren_count' :=
          if bool_decide (j' < length lines)
          then (paren_count + paren_delta (line_at lines j'))%Z
          else paren_count in
        inner_while lines paren_count' j'
    | right _ => (paren_count, j) }.
Proof. lia. Qed.

(** One pass through the body of the outer loop, from the state
    [(i, new_lines)] to the next one. *)
Definition loop_body (lines : list str) (st : nat * list str) : nat * list str :=
  let '(i, new_lines) := st in
  let line := line_at lines i in
  if is_console_stmt line then
    let paren_count := paren_delta line in
    let j := i in
    let '(_, j) := inner_while lines paren_count j in
    (j + 1, new_lines)
  else
    (i + 1, new_lines ++ [line]).

(** The outer [while i < len(lines)] loop; returns the final
    [(i, new_lines)]. Every pass moves [i] forward, which is what makes
    the loop terminate. *)
Equations? while_outer (lines : list str) (st : nat * list str) : nat * list str
  by wf (length lines - st.1) lt :=
  while_outer lines st with decide (st.1 < length lines) := {
    | left _ => while_outer lines (loop_body lines st)
    | right _ => st }.
Proof.
  destruct (is_console_stmt _); simpl; [|lia].
  assert (∀ pc j, j < length lines →
            j ≤ (inner_while lines pc j).2 < length lines) as Hj.
  { clear. intros pc j. funelim (inner_while lines pc j); simpl; intros; [|lia].
    match goal with IH : _ → _ ≤ _ < _ |- _ => specialize (IH ltac:(lia)) end.
    lia. }
  match goal with
  | Hlt : ?i < length lines |- context [inner_while lines ?pc ?i] =>
      specialize (Hj pc i Hlt); destruct (inner_while lines pc i)
  end.
  simpl in *. lia.
Qed.

(** [new_lines] when the outer loop ends, for the split [lines]. *)
Definition excise_lines (lines : list str) : list str :=
  let new_lines := [] in
  let i := 0 in
  (while_outer lines (i, new_lines)).2.

(** The pure part of [remove_console_logs]: from the file's content to
    [new_content] and the outcome of [new_content != content]. The
    unused [console_pattern] of the source is left out. *)
Definition excise (content : str) : str * bool :=
  let lines := split NL content in
  let new_lines := excise_lines lines in
  let new_content := join NL new_lines in
  (new_content, bool_decide (new_content ≠ content)).

End RemoveConsoleLogs.

(** ** Files, standard output and exceptions *)

Module IO.
Import Py.

Definition CR : char := 13%N.

(** The exceptions that reading, writing and printing raise; all are
    subclasses of [Exception]. Each carries its [str(e)]. *)
Inductive exn :=
| OSError (msg : str)
| UnicodeDecodeError (msg : str)
| UnicodeEncodeError (msg : str).

(** [str(e)] *)
Definition exn_str (e : exn) : str :=
  match e with
  | OSError msg | UnicodeDecodeError msg | UnicodeEncodeError msg => msg
  end.

(** What text-mode reading does to line endings ([newline=None]): a
    carriage return followed by a newline, and a carriage return alone,
    both come out as one newline. [after_cr] says that the character just
    before was a carriage return. *)
Fixpoint universal_newlines (after_cr : bool) (s : str) : str :=
  match s with
  | [] => []
  | c :: s' =>
      if bool_decide (c = CR) then NL :: universal_newlines true s'
      else if bool_decide (c = NL) && after_cr then universal_newlines false s'
      else c :: universal_newlines false s'
  end.

(** What opening a path with ['w'] and writing text to it does:
    - [Written]: the file is replaced by the text;
    - [OpenFails e]: [open] raises [e] and the file is as it was;
    - [WriteFails e kept reread]: [open] has emptied the file, then writing
      or closing raises [e] when at most the first [kept] characters have
      reached it; a later read gives those characters, or raises [reread]
      when the cut fell inside a character. *)
Inductive write_outcome :=
| Written
| OpenFails (e : exn)
| WriteFails (e : exn) (kept : nat) (reread : option exn).

(** What a path holds: the text its bytes decode to, with the line endings
    it has on disk, or the error that opening or decoding it raises; and
    how writing to it goes. *)
Record file := File {
  on_read : exn + str;
  on_write : write_outcome;
}.

(** The world a run acts on: the files; what reading, and writing, a path
    that holds no file does ([FileNotFoundError], whose text names the
    path; ['w'] creates the file or fails); the messages printed so far;
    and the error, if any, that printing a message raises given what has
    been printed ([UnicodeEncodeError] when the stream's encoding lacks a
    character, [OSError] when the stream is gone). *)
Record world := World {
  fs : gmap str file;
  missing_read : str → exn;
  missing_write : str → write_outcome;
  stdout : list str;
  stdout_error : list str → str → option exn;
}.

(** The world with its files replaced. *)
Definition with_fs (w : world) (files : gmap str file) : world :=
  {| fs := files;
     missing_read := missing_read w;
     missing_write := missing_write w;
     stdout := stdout w;
     stdout_error := stdout_error w |}.

(** The world with one more message printed. *)
Definition with_line (w : world) (msg : str) : world :=
  {| fs := fs w;
     missing_read := missing_read w;
     missing_write := missing_write w;
     stdout := stdout w ++ [msg];
     stdout_error := stdout_error w |}.

(** Computations that read and change the world and may raise. *)
Definition M (A : Type) : Type := world → (exn + A) * world.

#[global] Instance M_ret : MRet M := λ A a w, (inr a, w).

(** Sequencing: an exception raised by the first part skips the rest. *)
#[global] Instance M_bind : MBind M := λ A B f m w,
  match m w with
  | (inr a, w') => f a w'
  | (inl e, w') => (inl e, w')
  end.

Definition raise {A} (e : exn) : M A := λ w, (inl e, w).

(** [try: body  except Exception as e: handler(e)]. What the handler
    raises is not caught. *)
Definition try_except {A} (body : M A) (handler : exn → M A) : M A :=
  λ w, match body w with
       | (inr a, w') => (inr a, w')
       | (inl e, w') => handler e w'
       end.

(** [with open(path, 'r', encoding='utf-8') as f: f.read()] *)
Definition read_text (path : str) : M str :=
  λ w, match fs w !! path with
       | Some f =>
           match on_read f with
           | inr text => (inr (universal_newlines false text), w)
           | inl e => (inl e, w)
           end
       | None => (inl (missing_read w path), w)
       end.

(** What a later read finds of [data] after a write that failed on the
    way. *)
Definition cut (kept : nat) (reread : option exn) (data : str) : exn + str :=
  match reread with
  | Some e => inl e
  | None => inr (take kept data)
  end.

(** [with open(path, 'w', encoding='utf-8') as f: f.write(data)].
    [os.linesep] is a newline (POSIX), so the text goes to the file as it
    is. *)
Definition write_text (path data : str) : M unit :=
  λ w,
    let outcome :=
      match fs w !! path with
      | Some f => on_write f
      | None => missing_write w path
      end in
    match outcome with
    | Written =>
        (inr (), with_fs w (<[path := File (inr data) Written]> (fs w)))
    | OpenFails e => (inl e, w)
    | WriteFails e kept reread =>
        (inl e,
         with_fs w (<[path := File (cut kept reread data) outcome]> (fs w)))
    end.

(** [print(msg)] *)
Definition print (msg : str) : M unit :=
  λ w, match stdout_error w (stdout w) msg with
       | Some e => (inl e, w)
       | None => (inr (), with_line w msg)
       end.

(** [for x in xs: acc = body(x, acc)] *)
Fixpoint for_each {A S} (xs : list A) (body : A → S → M S) (acc : S) : M S :=
  match xs with
  | [] => mret acc
  | x :: xs' => acc' ← body x acc; for_each xs' body acc'
  end.

(** [os.path.join(a, b)] on POSIX. *)
Definition path_join (a b : str) : str :=
  if bool_decide (take 1 b = lit "/") then b
  else if bool_decide (a = []) || endswith a (lit "/") then a ++ b
  else a ++ lit "/" ++ b.

(** Printing [msg] now succeeds. *)
Definition accepts (w : world) (msg : str) : Prop :=
  stdout_error w (stdout w) msg = None.

(** Printing never fails, whatever the message and whatever was printed
    before. *)
Definition stdout_reliable (w : world) : Prop :=
  ∀ printed msg, stdout_error w printed msg = None.

(** [n] as [width] lower-case hexadecimal digits. *)
Fixpoint hex (width : nat) (n : N) : str :=
  match width with
  | 0 => []
  | S width' =>
      hex width' (n / 16)
        ++ [let d := (n mod 16)%N in if (d <? 10)%N then (48 + d)%N else (87 + d)%N]
  end.

(** How the text of a [UnicodeEncodeError] shows the character. *)
Definition char_escape (c : char) : str :=
  if (c <=? 0xFF)%N then lit "\x" ++ hex 2 c
  else if (c <=? 0xFFFF)%N then lit "\u" ++ hex 4 c
  else lit "\U" ++ hex 8 c.

(** How many characters at the head of [s] pass the test. *)
Fixpoint run_length (test : char → bool) (s : str) : nat :=
  match s with
  | c :: s' => if test c then S (run_length test s') else 0
  | [] => 0
  end.

(** The error a strict encoder raises on [msg], if any: it names the first
    run of characters that the encoding lacks. *)
Definition encode_error (codec reason : str) (encodable : char → bool) (msg : str)
    : option exn :=
  let start := run_length encodable msg in
  let bad := take (run_length (λ c, negb (encodable c)) (drop start msg))
                  (drop start msg) in
  match bad with
  | [] => None
  | [c] =>
      Some (UnicodeEncodeError
        (lit "'" ++ codec ++ lit "' codec can't encode character '" ++ char_escape c
         ++ lit "' in position " ++ lit (pretty start) ++ lit ": " ++ reason))
  | _ =>
      Some (UnicodeEncodeError
        (lit "'" ++ codec ++ lit "' codec can't encode characters in position "
         ++ lit (pretty start) ++ lit "-"
         ++ lit (pretty (start + length bad - 1)) ++ lit ": " ++ reason))
  end.

(** A standard output encoded as UTF-8: it takes every message but those
    with a surrogate code point. *)
Definition utf8_stdout (printed : list str) (msg : str) : option exn :=
  encode_error (lit "utf-8") (lit "surrogates not allowed")
    (λ c, negb ((0xD800 <=? c) && (c <=? 0xDFFF)))%N msg.

(** A standard output encoded as ASCII. *)
Definition ascii_stdout (printed : list str) (msg : str) : option exn :=
  encode_error (lit "ascii") (lit "ordinal not in range(128)")
    (λ c, c <? 128)%N msg.

End IO.

Module Batch.
Import Py RemoveConsoleLogs IO.

(** f"✅ Cleaned: {file_path}" *)
Definition msg_cleaned (file_path : str) : str :=
  [0x2705%N] ++ lit " Cleaned: " ++ file_path.

(** f"❌ Error processing {file_path}: {e}" *)
Definition msg_error (file_path : str) (e : exn) : str :=
  [0x274C%N] ++ lit " Error processing " ++ file_path ++ lit ": " ++ exn_str e.

(** f"\n🎉 Cleaning complete! {files_cleaned} files were cleaned." *)
Definition msg_complete (files_cleaned : nat) : str :=
  [NL; 0x1F389%N] ++ lit " Cleaning complete! " ++ lit (pretty files_cleaned)
    ++ lit " files were cleaned.".

(** The [try] block of [remove_console_logs]. *)
Definition try_block (file_path : str) : M bool :=
  content ← read_text file_path;
  let '(new_content, changed) := excise content in
  if changed then
    write_text file_path new_content;;
    print (msg_cleaned file_path);;
    mret true
  else
    mret false.

(** Its [except Exception as e] block. *)
Definition except_block (file_path : str) (e : exn) : M bool :=
  print (msg_error file_path e);;
  mret false.

(** [remove_console_logs(file_path)] *)
Definition remove_console_logs (file_path : str) : M bool :=
  try_except (try_block file_path) (except_block file_path).

(** [if remove_console_logs(file_path): files_cleaned += 1] *)
Definition clean_file (file_path : str) (files_cleaned : nat) : M nat :=
  cleaned ← remove_console_logs file_path;
  mret (if cleaned : bool then files_cleaned + 1 else files_cleaned).

Section Main.
(** The directory tree is not touched by the run, so [os.path.exists]
    and the triples [os.walk] yields are taken as given. *)
Variable path_exists : str → bool.
Variable os_walk : str → list (str * list str * list str).

Definition base_dir : str :=
  lit "/Users/dr.hunter/CS Projects/at-Cloud-sign-up-system".

Definition directories : list str :=
  [path_join (path_join base_dir (lit "frontend")) (lit "src");
   path_join (path_join base_dir (lit "backend")) (lit "src")].

(** The loops of [main], from [files_cleaned = 0] to its final value. *)
Definition count_cleaned : M nat :=
  let files_cleaned := 0 in
  for_each directories (λ directory files_cleaned,
    if path_exists directory then
      for_each (os_walk directory) (λ '(root, dirs, files) files_cleaned,
        for_each files (λ file files_cleaned,
          if endswith file (lit ".ts") || endswith file (lit ".tsx") then
            let file_path := path_join root file in
            clean_file file_path files_cleaned
          else mret (M:=M) files_cleaned) files_cleaned) files_cleaned
    else mret (M:=M) files_cleaned) files_cleaned.

(** [main()]: the loops, then the summary. It has no [return], so it
    returns [None]. *)
Definition main : M unit :=
  files_cleaned ← count_cleaned;
  print (msg_complete files_cleaned).

(** The paths [main] hands to [remove_console_logs], in the order it
    does. *)
Definition candidates : list str :=
  directory ← filter (λ directory, path_exists directory = true) directories;
  '(root, dirs, files) ← os_walk directory;
  file ← filter (λ file, endswith file (lit ".ts") || endswith file (lit ".tsx") = true) files;
  [path_join root file].
End Main.

(** [runs paths w results w']: calling [remove_console_logs] on each of
    [paths] in turn, from world [w], returns [results] and leaves [w']. *)
Inductive runs : list str → world → list bool → world → Prop :=
| runs_nil w : runs [] w [] w
| runs_cons file_path paths w result w1 results w2 :
    remove_console_logs file_path w = (inr result, w1) →
    runs paths w1 results w2 →
    runs (file_path :: paths) w (result :: results) w2.

(** How many of the results are [True]. *)
Definition count_true (results : list bool) : nat :=
  length (filter (λ result, result = true) results).

(** How many of the lines printed start with the check mark, as the
    "Cleaned" lines do and none of the others. *)
Definition cleaned_lines (printed : list str) : nat :=
  length (filter (λ msg, head msg = Some 0x2705%N) printed).

(** [settled w file_path]: a call on [file_path] in [w] has nothing to
    write, or cannot start writing: the path holds no file, the file
    cannot be read, its text has nothing to excise, or it cannot be
    opened for writing. *)
Definition settled (w : world) (file_path : str) : Prop :=
  match fs w !! file_path with
  | None => True
  | Some f =>
      match on_read f with
      | inl _ => True
      | inr raw =>
          (excise (universal_newlines false raw)).2 = false
          ∨ ∃ e, on_write f = OpenFails e
      end
  end.

(** [repr(path)] for a path of printable ASCII characters other than
    the quote and the backslash, as the paths of the examples are. *)
Definition plain_repr (path : str) : str := lit "'" ++ path ++ lit "'".

(** A world with the given files and nothing printed yet; a path that
    holds no file cannot be read, and is created by a write. *)
Definition new_world (files : gmap str file)
    (stdout_error : list str → str → option exn) : world :=
  {| fs := files;
     missing_read := λ path,
       OSError (lit "[Errno 2] No such file or directory: " ++ plain_repr path);
     missing_write := λ _, Written;
     stdout := [];
     stdout_error := stdout_error |}.

(** A standard output that takes every message, as one opened with
    [errors='backslashreplace'] does. *)
Definition lenient_stdout (printed : list str) (msg : str) : option exn := None.

(** The second of the two directories, and a file in it. *)
Definition backend_src : str :=
  path_join (path_join base_dir (lit "backend")) (lit "src").

Definition in_backend (name : str) : str := path_join backend_src name.

(** Only that directory exists, and walking it yields itself with the
    given file names. *)
Definition only_backend (directory : str) : bool :=
  bool_decide (directory = backend_src).

Definition walk_flat (names : list str) (directory : str)
    : list (str * list str * list str) :=
  [(directory, [], names)].

(** Three files there: [a.ts] and [c.ts] hold console statements, [b.ts]
    cannot be opened. *)
Definition three_files : gmap str file :=
  <[in_backend (lit "a.ts") :=
      File (inr (lit "console.log(1);" ++ NL :: lit "a();")) Written]>
  (<[in_backend (lit "b.ts") :=
      File (inl (OSError (lit "[Errno 13] Permission denied: "
                          ++ plain_repr (in_backend (lit "b.ts"))))) Written]>
  (<[in_backend (lit "c.ts") :=
      File (inr (lit "c();" ++ NL :: lit "console.info(2);")) Written]>
   ∅)).

(** Those files, with a standard output encoded as UTF-8. *)
Definition isolation_example : world := new_world three_files utf8_stdout.

(** Those files, with a standard output encoded as ASCII, as under
    [PYTHONIOENCODING=ascii]. *)
Definition ascii_example : world := new_world three_files ascii_stdout.

(** Those files, with a standard output that takes every message. *)
Definition lenient_example : world := new_world three_files lenient_stdout.

(** The name of a file whose name on disk is the byte 0xE9 followed by
    [.ts]: not UTF-8, so [os.walk] yields it with the surrogate U+DCE9. *)
Definition odd_name : str := [0xDCE9%N] ++ lit ".ts".

(** Three files again, the middle one under that name and with bytes that
    are not UTF-8 text, and a standard output encoded as UTF-8. *)
Definition odd_name_example : world :=
  new_world
    (<[in_backend (lit "a.ts") :=
         File (inr (lit "console.log(1);" ++ NL :: lit "a();")) Written]>
    (<[in_backend odd_name :=
         File (inl (UnicodeDecodeError
           (lit "'utf-8' codec can't decode byte 0xff in position 0: invalid start byte")))
           Written]>
    (<[in_backend (lit "c.ts") :=
         File (inr (lit "c();" ++ NL :: lit "console.info(2);")) Written]>
     ∅)))
    utf8_stdout.

End Batch.


(** ** backend/extract_guest_method.py *)

Module ExtractGuestMethod.
Import Py.

Definition DQUOTE : char := 34%N.

(** The delegation text: one string of eleven newline-terminated lines,
    the last of them empty. *)
Definition delegation : str :=
  concat ((λ l, l ++ [NL]) <$>
    [ lit "  /**";
      lit "   * Register a guest for an event role";
      lit "   * POST /api/events/:eventId/guest-signup";
      lit "   */";
      lit "  static async registerGuest(req: Request, res: Response): Promise<void> {";
      lit "    const { GuestRegistrationController } = await import(";
      lit "      " ++ [DQUOTE] ++ lit "./guest/GuestRegistrationController" ++ [DQUOTE];
      lit "    );";
      lit "    return GuestRegistrationController.registerGuest(req, res);";
      lit "  }";
      [] ]).

(** [lines[0:start] + block + lines[stop:]], the expression that builds
    [new_lines], with its two bounds and its block as arguments. *)
Definition splice (lines : list str) (start stop : nat) (block : list str) : list str :=
  slice lines 0 start ++ block ++ slice_from lines stop.

(** [new_lines = lines[0:77] + [delegation] + lines[783:]] *)
Definition new_lines (lines : list str) : list str :=
  splice lines 77 783 [delegation].

End ExtractGuestMethod.

(** ** Vocabulary for statements about the scan *)

Module Scan.
Import Py RemoveConsoleLogs.

(** Total of the parenthesis deltas of a block of lines. *)
Definition delta_sum (block : list str) : Z :=
  foldr (λ line acc, paren_delta line + acc)%Z 0%Z block.

(** The balance the inner loop holds when its cursor stands on line [m],
    having started on line [i]: the deltas of lines [i..m], both ends
    included. *)
Definition balance (lines : list str) (i m : nat) : Z :=
  delta_sum (slice lines i (m + 1)).

(** One iteration of the outer loop: the guard [i < len(lines)] holds
    and the body runs. *)
Definition step (lines : list str) (st st' : nat * list str) : Prop :=
  st.1 < length lines ∧ st' = loop_body lines st.

(** The states [(i, new_lines)] the outer loop passes through at its
    head, from the initial [i = 0], [new_lines = []]. *)
Definition reachable (lines : list str) (st : nat * list str) : Prop :=
  rtc (step lines) (0, []) st.

(** [excised lines i j]: the scan arrives at line [i] with the cursor,
    finds the pattern in it, and its inner loop stops on line [j]; lines
    [i..j] are the range skipped by [i = j + 1]. *)
Definition excised (lines : list str) (i j : nat) : Prop :=
  ∃ new_lines,
    reachable lines (i, new_lines) ∧ i < length lines ∧
    is_console_stmt (line_at lines i) = true ∧
    (inner_while lines (paren_delta (line_at lines i)) i).2 = j.

(** Line [k] lies in some excised range. *)
Definition covered (lines : list str) (k : nat) : Prop :=
  ∃ i j, excised lines i j ∧ i ≤ k ≤ j.

(** The five-line example: a call spread over four lines, then an
    unrelated statement. *)
Definition multi_line_example : list str :=
  [ lit "console.log(";
    lit "  " ++ [34%N] ++ lit "value:" ++ [34%N] ++ lit ", x,";
    lit "  y";
    lit ");";
    lit "nextStatement();" ].

(** A one-line call that closes one parenthesis more than it opens,
    followed by an unrelated statement. *)
Definition overclosed_example : list str :=
  [ lit "console.log(x))"; lit "keep();" ].

(** A call that is opened and never closed, between unrelated lines. *)
Definition unclosed_example : list str :=
  [ lit "keep();"; lit "console.log("; lit "  x,"; lit "tail();" ].

(** A complete one-line call between two unrelated lines. *)
Definition single_line_example : list str :=
  [ lit "before();"; lit "  console.debug(x);"; lit "after();" ].

End Scan.

(** ** backend/extract_guest_method.py, the whole script *)

Module ExtractRun.
Import Py IO ExtractGuestMethod.

(** The path the script opens, for reading and then for writing. *)
Definition controller_path : str := lit "src/controllers/guestController.ts".

(** [f.readlines()] on text: the lines with their newline kept, the last
    one without if the text does not end in a newline. *)
Fixpoint readlines (s : str) : list str :=
  match s with
  | [] => []
  | c :: s' =>
      if bool_decide (c = NL) then [NL] :: readlines s'
      else match readlines s' with
           | line :: lines => (c :: line) :: lines
           | [] => [[c]]
           end
  end.

(** print("✅ Successfully replaced registerGuest with delegation") *)
Definition msg_replaced : str :=
  [0x2705%N] ++ lit " Successfully replaced registerGuest with delegation".

(** f"   Original lines: {len(lines)}" *)
Definition msg_original (n : nat) : str :=
  lit "   Original lines: " ++ lit (pretty n).

(** f"   New lines: {len(new_lines)}" *)
Definition msg_new (n : nat) : str :=
  lit "   New lines: " ++ lit (pretty n).

(** f"   Saved: {len(lines) - len(new_lines)} lines"; the difference is a
    Python int and can be negative. *)
Definition msg_saved (saved : Z) : str :=
  lit "   Saved: " ++ lit (pretty saved) ++ lit " lines".

(** The script from top to bottom. It has no [try]: what reading or
    writing raises ends the run. [f.writelines(new_lines)] writes the
    strings one after the other. *)
Definition script : M unit :=
  content ← read_text controller_path;
  let lines := readlines content in
  let new_lines := new_lines lines in
  write_text controller_path (concat new_lines);;
  print msg_replaced;;
  print (msg_original (length lines));;
  print (msg_new (length new_lines));;
  print (msg_saved (Z.of_nat (length lines) - Z.of_nat (length new_lines))).

End ExtractRun.

Import Py Re RemoveConsoleLogs Scan.

(** ** Strings: split and join *)

Section SplitJoin.
Implicit Types (s piece : str) (pieces : list str) (sep : char).

Lemma split_nonempty sep s : split sep s ≠ [].
Proof.
  destruct s as [|c s]; simpl; [done|].
  case_bool_decide; [done|]. by destruct (split sep s).
Qed.

Lemma split_no_sep sep s : Forall (λ piece, sep ∉ piece) (split sep s).
Proof.
  induction s as [|c s IH]; simpl.
  - constructor; [|done]. apply not_elem_of_nil.
  - case_bool_decide as Hc.
    + constructor; [apply not_elem_of_nil | done].
    + destruct (split sep s) as [|piece pieces].
      * constructor; [|done]. rewrite elem_of_cons, elem_of_nil.
        intros [?|[]]. congruence.
      * inversion IH as [|? ? Hpiece Hpieces]; subst.
        constructor; [|done]. rewrite elem_of_cons.
        intros [?|?]; [congruence | done].
Qed.

Lemma join_split sep s : join sep (split sep s) = s.
Proof.
  induction s as [|c s IH]; simpl; [done|].
  case_bool_decide as Hc.
  - subst c. pose proof (split_nonempty sep s).
    destruct (split sep s) as [|piece pieces]; [done|]. simpl in *.
    by rewrite <- IH.
  - pose proof (split_nonempty sep s).
    destruct (split sep s) as [|piece pieces]; [done|].
    destruct pieces; simpl in *; by rewrite <- IH.
Qed.

Lemma split_app_sep sep piece s :
  sep ∉ piece → split sep (piece ++ sep :: s) = piece :: split sep s.
Proof.
  induction piece as [|c piece IH]; simpl; intros Hnot.
  - by rewrite bool_decide_true.
  - rewrite not_elem_of_cons in Hnot. destruct Hnot as [Hc Hp].
    rewrite bool_decide_false by done. by rewrite IH.
Qed.

Lemma split_no_sep_id sep piece : sep ∉ piece → split sep piece = [piece].
Proof.
  induction piece as [|c piece IH]; simpl; intros Hnot; [done|].
  rewrite not_elem_of_cons in Hnot. destruct Hnot as [Hc Hp].
  rewrite bool_decide_false by done. by rewrite IH.
Qed.

Lemma split_join sep pieces :
  pieces ≠ [] → Forall (λ piece, sep ∉ piece) pieces →
  split sep (join sep pieces) = pieces.
Proof.
  induction pieces as [|piece pieces IH]; [done|]. intros _ Hall.
  inversion Hall as [|? ? Hp Hps]; subst.
  destruct pieces as [|piece' pieces].
  - simpl. by apply split_no_sep_id.
  - change (join sep (piece :: piece' :: pieces))
      with (piece ++ sep :: join sep (piece' :: pieces)).
    rewrite split_app_sep by done. by rewrite IH.
Qed.

End SplitJoin.

(** ** The inner loop *)

Section InnerLoop.
Implicit Types (lines block : list str) (i j m : nat) (pc : Z).

Lemma delta_sum_app block1 block2 :
  delta_sum (block1 ++ block2) = (delta_sum block1 + delta_sum block2)%Z.
Proof. induction block1 as [|l block1 IH]; simpl; lia. Qed.

Lemma line_at_lookup lines m :
  m < length lines → lines !! m = Some (line_at lines m).
Proof.
  intros Hm. unfold line_at. apply list_lookup_lookup_total_lt. done.
Qed.

Lemma balance_same lines i :
  i < length lines → balance lines i i = paren_delta (line_at lines i).
Proof.
  intros Hi. unfold balance, slice.
  replace (i + 1 - i) with 1 by lia.
  pose proof (line_at_lookup lines i Hi) as Hl.
  rewrite <- (take_drop_middle _ _ _ Hl) at 1.
  rewrite drop_app_length'; [|rewrite length_take; lia].
  simpl. lia.
Qed.

Lemma balance_step lines i m :
  i ≤ m → m + 1 < length lines →
  balance lines i (m + 1) =
    (balance lines i m + paren_delta (line_at lines (m + 1)))%Z.
Proof.
  intros Him Hm. unfold balance, slice.
  replace (m + 1 + 1 - i) with (S (m + 1 - i)) by lia.
  rewrite (take_S_r _ _ (line_at lines (m + 1))).
  - rewrite delta_sum_app. simpl. lia.
  - rewrite lookup_drop. replace (i + (m + 1 - i)) with (m + 1) by lia.
    by apply line_at_lookup.
Qed.

(** Where the inner loop stops, in terms of the balance: started on line
    [j] of a statement opened on line [i], it stops on the first line
    from [j] on at which the balance is no longer positive, or on the
    last line. *)
Lemma inner_while_spec lines i pc j :
  i ≤ j < length lines → pc = balance lines i j →
  ∃ pc' j',
    inner_while lines pc j = (pc', j') ∧
    j ≤ j' < length lines ∧
    pc' = balance lines i j' ∧
    (∀ m, j ≤ m < j' → (0 < balance lines i m)%Z) ∧
    ((pc' ≤ 0)%Z ∨ j' + 1 = length lines).
Proof.
  funelim (inner_while lines pc j); intros Hij Hpc.
  - match goal with IH : ∀ _, _ ≤ _ < _ → _ |- _ => rename IH into IH' end.
    destruct (IH' i) as (pc' & j' & Hrun & Hj' & Hpc' & Hpos & Hstop).
    + lia.
    + rewrite bool_decide_true by lia. rewrite balance_step by lia. by subst.
    + exists pc', j'. split; [done|]. split; [lia|]. split; [done|].
      split; [|done]. intros m Hm.
      destruct (decide (m = j)) as [->|Hne]; [lia|]. apply Hpos. lia.
  - exists paren_count, j. split; [done|]. split; [lia|]. split; [done|].
    split; [intros; lia|]. lia.
Qed.

End InnerLoop.

(** ** The outer loop *)

Section OuterLoop.
Implicit Types (lines new_lines : list str) (st : nat * list str) (i j m : nat).

Lemma loop_body_keep lines i new_lines :
  is_console_stmt (line_at lines i) = false →
  loop_body lines (i, new_lines) = (i + 1, new_lines ++ [line_at lines i]).
Proof. intros Hno. unfold loop_body. by rewrite Hno. Qed.

Lemma loop_body_drop lines i new_lines :
  i < length lines → is_console_stmt (line_at lines i) = true →
  ∃ j,
    (inner_while lines (paren_delta (line_at lines i)) i).2 = j ∧
    loop_body lines (i, new_lines) = (j + 1, new_lines) ∧
    i ≤ j < length lines ∧
    (∀ m, i ≤ m < j → (0 < balance lines i m)%Z) ∧
    ((balance lines i j ≤ 0)%Z ∨ j + 1 = length lines).
Proof.
  intros Hi Hyes. unfold loop_body. rewrite Hyes.
  destruct (inner_while_spec lines i (paren_delta (line_at lines i)) i)
    as (pc' & j & Hrun & Hj & Hpc' & Hpos & Hstop);
    [lia | by rewrite balance_same |].
  rewrite Hrun. exists j. simpl. subst pc'. done.
Qed.

(** The body moves the cursor forward, stays within the file, and only
    ever appends to [new_lines]. *)
Lemma step_progress lines st st' :
  step lines st st' →
  st.1 < st'.1 ≤ length lines ∧ st.2 `prefix_of` st'.2.
Proof.
  destruct st as [i new_lines]. intros [Hguard ->]. simpl in Hguard.
  destruct (is_console_stmt (line_at lines i)) eqn:Hm.
  - destruct (loop_body_drop lines i new_lines Hguard Hm)
      as (j & _ & -> & Hj & _). simpl. split; [lia | done].
  - rewrite loop_body_keep by done. simpl. split; [lia|].
    by apply prefix_app_r.
Qed.

Lemma steps_progress lines st st' :
  rtc (step lines) st st' →
  st.1 ≤ st'.1 ∧ st.2 `prefix_of` st'.2 ∧ (st.1 = st'.1 → st = st').
Proof.
  induction 1 as [st|st st1 st' Hstep Hrest IH].
  - done.
  - apply step_progress in Hstep. destruct IH as (Hle & Hpre & _).
    destruct Hstep as [Hlt Hpre1].
    split; [lia|]. split; [by etrans | lia].
Qed.

(** The loop is deterministic, so the states it passes through are
    linearly ordered. *)
Lemma steps_linear lines st0 st st' :
  rtc (step lines) st0 st → rtc (step lines) st0 st' →
  rtc (step lines) st st' ∨ rtc (step lines) st' st.
Proof.
  intros Hst. revert st'.
  induction Hst as [st|st0 st1 st Hstep Hrest IH]; intros st' Hst'.
  - by left.
  - destruct Hst' as [|st0 st1' st' Hstep' Hrest'].
    + right. by eapply rtc_l.
    + destruct Hstep as [_ ->], Hstep' as [_ ->]. by apply IH.
Qed.

Lemma while_outer_step lines st :
  st.1 < length lines → while_outer lines st = while_outer lines (loop_body lines st).
Proof.
  intros Hguard. rewrite while_outer_equation_1.
  destruct (decide (st.1 < length lines)); [done | lia].
Qed.

Lemma while_outer_exit lines st :
  ¬ st.1 < length lines → while_outer lines st = st.
Proof.
  intros Hguard. rewrite while_outer_equation_1.
  destruct (decide (st.1 < length lines)); [lia | done].
Qed.

(** The loop ends, in a state that its iterations lead to and in which
    the guard is false. *)
Lemma while_outer_steps lines st :
  rtc (step lines) st (while_outer lines st) ∧
  ¬ (while_outer lines st).1 < length lines.
Proof.
  funelim (while_outer lines st).
  - match goal with IH : rtc _ _ _ ∧ _ |- _ => destruct IH as [IH1 IH2] end.
    split; [|done]. eapply rtc_l; [|done]. split; [|done]. done.
  - split; [done | done].
Qed.

End OuterLoop.

(** ** Reachable states and excised ranges *)

Section Reachable.
Implicit Types (lines new_lines : list str) (st : nat * list str) (i j k m : nat).

Lemma reachable_step lines st :
  reachable lines st → st.1 < length lines →
  reachable lines (loop_body lines st).
Proof. intros Hst Hguard. eapply rtc_r; [exact Hst|]. by split. Qed.

(** Invariant rule: what holds initially and is kept by every iteration
    holds at every reachable state. *)
Lemma reachable_invariant lines (P : nat * list str → Prop) :
  P (0, []) →
  (∀ st, reachable lines st → st.1 < length lines → P st →
         P (loop_body lines st)) →
  ∀ st, reachable lines st → P st.
Proof.
  intros Hinit Hkeep. apply rtc_ind_r; [done|].
  intros st st' Hst [Hguard ->] HP. by apply Hkeep.
Qed.

Lemma reachable_bound lines st : reachable lines st → st.1 ≤ length lines.
Proof.
  revert st. apply reachable_invariant; [simpl; lia|].
  intros st _ Hguard _.
  assert (step lines st (loop_body lines st)) as Hstep by done.
  apply step_progress in Hstep. lia.
Qed.

Lemma reachable_final lines : reachable lines (while_outer lines (0, [])).
Proof. apply while_outer_steps. Qed.

(** Every reachable state lies on the way to the final one. *)
Lemma reachable_to_final lines st :
  reachable lines st → rtc (step lines) st (while_outer lines (0, [])).
Proof.
  intros Hst.
  destruct (steps_linear lines _ _ _ Hst (reachable_final lines)) as [|Hback];
    [done|].
  apply rtc_inv in Hback as [<-|(st' & [Hguard _] & _)]; [done|].
  by destruct (while_outer_steps lines (0, [])) as [_ []].
Qed.

Lemma final_cursor lines : (while_outer lines (0, [])).1 = length lines.
Proof.
  pose proof (reachable_bound _ _ (reachable_final lines)).
  destruct (while_outer_steps lines (0, [])) as [_ Hexit]. lia.
Qed.

Lemma reachable_prefix lines st :
  reachable lines st → st.2 `prefix_of` excise_lines lines.
Proof.
  intros Hst%reachable_to_final%steps_progress. unfold excise_lines. tauto.
Qed.

(** A state reached with the cursor at the end of the file is the final
    one. *)
Lemma reachable_at_end lines st :
  reachable lines st → st.1 = length lines → st.2 = excise_lines lines.
Proof.
  intros Hst Hend. pose proof (reachable_to_final _ _ Hst) as Hfin.
  apply steps_progress in Hfin as (_ & _ & Heq).
  unfold excise_lines. rewrite <- Heq; [done|]. by rewrite final_cursor.
Qed.

Lemma excised_spec lines i j :
  excised lines i j →
  i ≤ j < length lines ∧
  (∀ m, i ≤ m < j → (0 < balance lines i m)%Z) ∧
  ((balance lines i j ≤ 0)%Z ∨ j + 1 = length lines).
Proof.
  intros (new_lines & _ & Hi & Hm & Hj).
  destruct (loop_body_drop lines i new_lines Hi Hm) as (j' & Hj' & _ & H).
  by replace j with j' by congruence.
Qed.

(** Excised ranges lie wholly before any later cursor position. *)
Lemma excised_before lines st i j :
  reachable lines st → excised lines i j → i < st.1 → j < st.1.
Proof.
  intros Hst (new_lines & Hi & Hlt & Hm & Hj) Hbefore.
  destruct (steps_linear lines _ _ _ Hi Hst) as [Hfwd|Hback].
  - apply rtc_inv in Hfwd as [<-|(st' & [_ ->] & Hrest)]; [simpl in *; lia|].
    destruct (loop_body_drop lines i new_lines Hlt Hm) as (j' & Hj' & Hbody & _).
    rewrite Hbody in Hrest. apply steps_progress in Hrest. simpl in *. lia.
  - apply steps_progress in Hback. simpl in *. lia.
Qed.

Lemma kept_not_covered lines i new_lines :
  reachable lines (i, new_lines) →
  is_console_stmt (line_at lines i) = false → ¬ covered lines i.
Proof.
  intros Hst Hno (i' & j' & Hex & Hin).
  destruct (decide (i' = i)) as [->|Hne].
  - destruct Hex as (? & _ & _ & Hyes & _). congruence.
  - pose proof (excised_before lines _ i' j' Hst Hex) as Hlt. simpl in Hlt. lia.
Qed.

(** At every reachable state, [new_lines] holds exactly the lines before
    the cursor that no excised range covers, in their order. *)
Lemma reachable_kept lines st :
  reachable lines st →
  ∃ kept : list nat,
    kept `sublist_of` seq 0 st.1 ∧
    st.2 = line_at lines <$> kept ∧
    ∀ k, k ∈ kept ↔ k < st.1 ∧ ¬ covered lines k.
Proof.
  revert st. apply reachable_invariant.
  - exists []. simpl. split; [done|]. split; [done|].
    intros k. rewrite elem_of_nil. lia.
  - intros [i new_lines] Hst Hguard (kept & Hsub & Hnl & Hkept).
    simpl in Hguard, Hsub, Hnl, Hkept.
    destruct (is_console_stmt (line_at lines i)) eqn:Hm.
    + destruct (loop_body_drop lines i new_lines Hguard Hm)
        as (j & Hj & -> & Hij & _). simpl.
      exists kept. split; [|split; [done|]].
      * replace (j + 1) with (i + (j + 1 - i)) by lia.
        rewrite seq_app. by apply sublist_inserts_r.
      * intros k. rewrite Hkept. split; [intros []; split; [lia | done]|].
        intros [Hk Hnot]. split; [|done].
        destruct (decide (k < i)); [done|]. exfalso. apply Hnot.
        exists i, j. split; [|lia]. by exists new_lines.
    + rewrite loop_body_keep by done. simpl.
      exists (kept ++ [i]). split; [|split].
      * replace (i + 1) with (S i) by lia. rewrite seq_S. simpl.
        by apply sublist_app.
      * rewrite fmap_app. simpl. by rewrite Hnl.
      * intros k. rewrite elem_of_app, list_elem_of_singleton, Hkept.
        pose proof (kept_not_covered lines i new_lines Hst Hm).
        split.
        -- intros [[]| ->]; split; (lia || done).
        -- intros [Hk Hnot]. destruct (decide (k = i)); [by right|].
           left. split; [lia | done].
Qed.

End Reachable.

(** ** The scan of a suffix, and of a file with the same first lines *)

Section Locality.
Implicit Types (lines new_lines : list str) (st : nat * list str) (i j k m n : nat).

(** The inner loop only looks forward: run on the lines from [i] on, it
    does what it does in the whole file, [i] lines further down. *)
Lemma inner_while_suffix suffix pc j :
  ∀ lines i, suffix = drop i lines →
    inner_while lines pc (i + j) =
      ((inner_while suffix pc j).1, i + (inner_while suffix pc j).2).
Proof.
  funelim (inner_while suffix pc j); intros whole i ->.
  - match goal with IH : ∀ _ _, _ = drop _ _ → _ |- _ =>
      rewrite <- (IH whole i eq_refl) end.
    rewrite (inner_while_equation_1 whole).
    match goal with a : _ ∧ _ |- _ => pose proof a as Hguard end.
    rewrite length_drop in Hguard.
    destruct (decide ((0 < paren_count)%Z ∧ i + j < length whole - 1))
      as [Hyes|Hno]; [|lia]. simpl.
    replace (i + j + 1) with (i + (j + 1)) by lia.
    unfold line_at. rewrite lookup_total_drop, length_drop.
    f_equal. repeat case_bool_decide; (lia || done).
  - rewrite (inner_while_equation_1 whole).
    match goal with n : ¬ _ |- _ => pose proof n as Hguard end.
    rewrite length_drop in Hguard.
    destruct (decide ((0 < paren_count)%Z ∧ i + j < length whole - 1))
      as [Hyes|Hno]; [lia|]. done.
Qed.

Lemma loop_body_suffix lines i k new_lines prefix :
  loop_body lines (i + k, prefix ++ new_lines) =
    (i + (loop_body (drop i lines) (k, new_lines)).1,
     prefix ++ (loop_body (drop i lines) (k, new_lines)).2).
Proof.
  unfold loop_body, line_at. rewrite lookup_total_drop.
  destruct (is_console_stmt _).
  - rewrite (inner_while_suffix (drop i lines) _ k lines i eq_refl).
    destruct (inner_while (drop i lines) _ _). simpl. f_equal. lia.
  - simpl. f_equal; [lia|]. by rewrite app_assoc.
Qed.

Lemma while_outer_drop suffix st :
  ∀ lines i prefix, suffix = drop i lines →
    while_outer lines (i + st.1, prefix ++ st.2) =
      (i + (while_outer suffix st).1, prefix ++ (while_outer suffix st).2).
Proof.
  funelim (while_outer suffix st); intros whole i prefix ->.
  - match goal with IH : ∀ _ _ _, _ = drop _ _ → _ |- _ =>
      rewrite <- (IH whole i prefix eq_refl) end.
    match goal with l : _ < length (drop _ _) |- _ => pose proof l as Hguard end.
    rewrite length_drop in Hguard.
    rewrite while_outer_step by (simpl; lia). f_equal.
    destruct st as [k new_lines]. apply loop_body_suffix.
  - match goal with n : ¬ _ < length (drop _ _) |- _ => pose proof n as Hguard end.
    rewrite length_drop in Hguard.
    rewrite while_outer_exit by (simpl; lia). done.
Qed.

(** What the scan appends from cursor position [i] on is the excision of
    the lines from [i] on. *)
Lemma while_outer_suffix lines i new_lines :
  (while_outer lines (i, new_lines)).2 = new_lines ++ excise_lines (drop i lines).
Proof.
  pose proof (while_outer_drop (drop i lines) (0, []) lines i new_lines eq_refl)
    as Hdrop.
  simpl in Hdrop. rewrite Nat.add_0_r, app_nil_r in Hdrop.
  unfold excise_lines. by rewrite Hdrop.
Qed.

Lemma reachable_suffix lines i new_lines :
  reachable lines (i, new_lines) →
  excise_lines lines = new_lines ++ excise_lines (drop i lines).
Proof.
  intros Hst. rewrite <- while_outer_suffix.
  pose proof (reachable_to_final _ _ Hst) as Hfin.
  destruct (while_outer_steps lines (i, new_lines)) as [Hown Hexit].
  destruct (steps_linear lines _ _ _ Hfin Hown) as [Hrtc|Hrtc];
    apply rtc_inv in Hrtc as [Heq|(st' & [Hguard _] & _)].
  - unfold excise_lines. by rewrite Heq.
  - by destruct (while_outer_steps lines (0, [])) as [_ []].
  - unfold excise_lines. by rewrite Heq.
  - done.
Qed.

Lemma inner_while_ge lines pc j : j ≤ (inner_while lines pc j).2.
Proof. funelim (inner_while lines pc j); simpl in *; lia. Qed.

(** The inner loop does not look past the line it stops on: in a file
    with the same first [n] lines it stops on the same line, as long as
    that line is among them and is not the last of the file. *)
Lemma inner_while_prefix lines pc j :
  ∀ lines' n,
    take n lines = take n lines' → n < length lines → n ≤ length lines' →
    (inner_while lines pc j).2 < n →
    inner_while lines' pc j = inner_while lines pc j.
Proof.
  funelim (inner_while lines pc j); intros lines' cut Htake Hcut Hcut' Hres.
  - match goal with
    | IH : ∀ _ _, take _ _ = take _ _ → _ |- _ =>
        rewrite <- (IH lines' cut Htake Hcut Hcut' Hres)
    end.
    pose proof (inner_while_ge lines
      (if bool_decide (j + 1 < length lines)
       then (paren_count + paren_delta (line_at lines (j + 1)))%Z
       else paren_count) (j + 1)) as Hge.
    rewrite (inner_while_equation_1 lines').
    destruct (decide ((0 < paren_count)%Z ∧ j < length lines' - 1))
      as [Hyes|Hno]; [|lia]. simpl.
    assert (line_at lines' (j + 1) = line_at lines (j + 1)) as ->.
    { unfold line_at.
      rewrite <- (lookup_total_take_lt lines' cut), <- (lookup_total_take_lt lines cut)
        by lia.
      by rewrite Htake. }
    f_equal. repeat case_bool_decide; (lia || done).
  - rewrite (inner_while_equation_1 lines').
    destruct (decide ((0 < paren_count)%Z ∧ j < length lines' - 1))
      as [Hyes|Hno]; [|done].
    simpl in Hres. lia.
Qed.

Lemma reachable_same_prefix lines lines' n st :
  take n lines = take n lines' → n < length lines → n ≤ length lines' →
  reachable lines st → st.1 ≤ n → reachable lines' st.
Proof.
  intros Htake Hn Hn'. revert st.
  apply (reachable_invariant lines (λ st, st.1 ≤ n → reachable lines' st)).
  - intros _. apply rtc_refl.
  - intros [i new_lines] Hst Hguard IH Hnext. simpl in Hguard.
    assert (step lines (i, new_lines) (loop_body lines (i, new_lines)))
      as Hstep by done.
    apply step_progress in Hstep as [Hlt _]. cbn [fst] in Hlt.
    assert (i < n) as Hi by lia.
    assert (loop_body lines' (i, new_lines) = loop_body lines (i, new_lines))
      as Hsame.
    2: { rewrite <- Hsame. apply reachable_step; [apply IH|]; simpl; lia. }
    revert Hnext. clear Hlt. unfold loop_body.
    assert (line_at lines' i = line_at lines i) as ->.
    { unfold line_at.
      rewrite <- (lookup_total_take_lt lines' n), <- (lookup_total_take_lt lines n)
        by lia.
      by rewrite Htake. }
    destruct (is_console_stmt (line_at lines i)); [|done].
    intros Hnext.
    rewrite (inner_while_prefix lines _ i lines' n Htake Hn Hn'); [done|].
    destruct (inner_while lines _ i). simpl in *. lia.
Qed.

End Locality.

(** ** Input without the pattern, and output without it *)

Section Clean.
Implicit Types (lines new_lines : list str) (line : str).

Lemma excise_lines_nil : excise_lines [] = [].
Proof. unfold excise_lines. by rewrite while_outer_exit by (simpl; lia). Qed.

Lemma excise_lines_keep line lines :
  is_console_stmt line = false →
  excise_lines (line :: lines) = line :: excise_lines lines.
Proof.
  intros Hno.
  assert (reachable (line :: lines) (1, [line])) as Hst.
  { change (1, [line]) with (0 + 1, [] ++ [line_at (line :: lines) 0]).
    rewrite <- loop_body_keep by done.
    apply reachable_step; [apply rtc_refl | simpl; lia]. }
  by rewrite (reachable_suffix _ _ _ Hst).
Qed.

Lemma excise_lines_drop_one line lines :
  is_console_stmt line = true → (paren_delta line ≤ 0)%Z →
  excise_lines (line :: lines) = excise_lines lines.
Proof.
  intros Hyes Hle.
  assert (reachable (line :: lines) (1, [])) as Hst.
  { destruct (loop_body_drop (line :: lines) 0 []) as (j & _ & Hbody & Hj & Hpos & _);
      [simpl; lia | done |].
    destruct (decide (j = 0)) as [->|Hne].
    - change (1, @nil str) with (0 + 1, @nil str). rewrite <- Hbody.
      apply reachable_step; [apply rtc_refl | simpl; lia].
    - specialize (Hpos 0 ltac:(lia)).
      rewrite balance_same in Hpos by (simpl; lia). unfold line_at in Hpos.
      simpl in Hpos. lia. }
  by rewrite (reachable_suffix _ _ _ Hst).
Qed.

(** Lines none of which has the pattern come out as they went in. *)
Lemma excise_lines_clean lines :
  Forall (λ line, is_console_stmt line = false) lines →
  excise_lines lines = lines.
Proof.
  induction 1 as [|line lines Hno _ IH]; [apply excise_lines_nil|].
  by rewrite excise_lines_keep, IH.
Qed.

(** No line of the output has the pattern. *)
Lemma excise_lines_no_match lines :
  Forall (λ line, is_console_stmt line = false) (excise_lines lines).
Proof.
  unfold excise_lines.
  apply (reachable_invariant lines
           (λ st, Forall (λ line, is_console_stmt line = false) st.2));
    [done | | apply reachable_final].
  intros [i new_lines] _ Hguard Hall. simpl in Hguard, Hall.
  destruct (is_console_stmt (line_at lines i)) eqn:Hm.
  - destruct (loop_body_drop lines i new_lines Hguard Hm) as (j & _ & -> & _).
    done.
  - rewrite loop_body_keep by done. simpl.
    apply Forall_app. split; [done|]. by constructor.
Qed.

End Clean.

(** ** The output as a selection of input lines *)

Section Selection.
Implicit Types (lines new_lines : list str) (content : str).

Lemma fmap_line_at_seq lines : line_at lines <$> seq 0 (length lines) = lines.
Proof.
  apply list_eq. intros k. rewrite list_lookup_fmap.
  destruct (decide (k < length lines)) as [Hk|Hk].
  - rewrite lookup_seq_lt by done. simpl. symmetry. by apply line_at_lookup.
  - rewrite lookup_seq_ge by lia. simpl. symmetry. apply lookup_ge_None. lia.
Qed.

(** The output is the lines at the indices no excised range covers, in
    increasing order of index. *)
Lemma excise_lines_kept lines :
  ∃ kept : list nat,
    kept `sublist_of` seq 0 (length lines) ∧
    excise_lines lines = line_at lines <$> kept ∧
    ∀ k, k ∈ kept ↔ k < length lines ∧ ¬ covered lines k.
Proof.
  destruct (reachable_kept lines _ (reachable_final lines))
    as (kept & Hsub & Hout & Hkept).
  rewrite final_cursor in Hsub, Hkept. by exists kept.
Qed.

Lemma excise_lines_sublist lines : excise_lines lines `sublist_of` lines.
Proof.
  destruct (excise_lines_kept lines) as (kept & Hsub & -> & _).
  rewrite <- (fmap_line_at_seq lines) at 2. by apply fmap_sublist.
Qed.

Lemma excise_lines_no_newline content :
  Forall (λ line, NL ∉ line) (excise_lines (split NL content)).
Proof.
  apply Forall_forall. intros line Hin.
  eapply elem_of_sublist in Hin; [|apply excise_lines_sublist].
  by eapply (proj1 (Forall_forall _ _) (split_no_sep NL content)).
Qed.

End Selection.

(** ** Claims about the excision *)

(** C10. The lines of the output are a subsequence of the lines of the
    input: whole lines are deleted, none is altered or added, so the output
    never has more lines than the input. The second part reads the same off
    the contents: [new_content] is the join of a subsequence of the input's
    lines, and splitting it again gives no more lines than the input had. *)
Theorem excise_output_subsequence :
  (∀ lines : list str,
     excise_lines lines `sublist_of` lines ∧
     length (excise_lines lines) ≤ length lines) ∧
  (∀ content : str,
     ∃ new_lines,
       (excise content).1 = join NL new_lines ∧
       new_lines `sublist_of` split NL content ∧
       length (split NL (excise content).1) ≤ length (split NL content)).
Proof.
  split.
  - intros lines. pose proof (excise_lines_sublist lines) as Hsub.
    split; [done | by apply sublist_length].
  - intros content. exists (excise_lines (split NL content)).
    split; [done|]. split; [apply excise_lines_sublist|].
    unfold excise. simpl.
    pose proof (sublist_length _ _ (excise_lines_sublist (split NL content))) as Hlen.
    destruct (excise_lines (split NL content)) as [|line new_lines] eqn:Hout.
    + simpl. pose proof (split_nonempty NL content).
      destruct (split NL content); [done | simpl; lia].
    + rewrite split_join; [done | done |].
      rewrite <- Hout. apply excise_lines_no_newline.
Qed.

(** C2. Excision is idempotent: run on its own output it reports no change
    and returns that output as it is. *)
Theorem excise_idempotent (content : str) :
  (excise (excise content).1).2 = false ∧
  (excise (excise content).1).1 = (excise content).1.
Proof.
  assert ((excise (excise content).1).1 = (excise content).1) as Hsame.
  { unfold excise at 1 3. simpl.
    pose proof (excise_lines_no_match (split NL content)) as Hclean.
    pose proof (excise_lines_no_newline content) as Hnl.
    destruct (excise_lines (split NL content)) as [|line new_lines] eqn:Hout.
    - reflexivity.
    - rewrite split_join by done. by rewrite excise_lines_clean. }
  split; [|done].
  unfold excise at 1. cbn [snd]. unfold excise in Hsame at 1. cbn [fst] in Hsame.
  rewrite Hsame. apply bool_decide_false. by intros [].
Qed.

(** ** The pattern in a line and in the whole content *)

Section Pattern.
Implicit Types (r : regex) (s t line : str) (k : str → bool).

Lemma star_space_stop s k : k s = true → star_space s k = true.
Proof. intros Hk. destruct s; simpl; [done|]. rewrite Hk. apply orb_true_r. Qed.

Lemma star_space_app s t k k' :
  (∀ u, k u = true → k' (u ++ t) = true) →
  star_space s k = true → star_space (s ++ t) k' = true.
Proof.
  intros Hk. induction s as [|c s IH]; simpl.
  - intros H%Hk. by apply star_space_stop.
  - intros [[Hc Hs]%andb_true_iff | H%Hk]%orb_true_iff.
    + rewrite Hc, IH by done. done.
    + simpl in H. rewrite H. apply orb_true_r.
Qed.

(** A match at the head of [s] is still one when text follows [s]. *)
Lemma match_here_app r s t k k' :
  (∀ u, k u = true → k' (u ++ t) = true) →
  match_here r s k = true → match_here r (s ++ t) k' = true.
Proof.
  revert s k k'. induction r as [|c| |r1 IH1 r2 IH2|r1 IH1 r2 IH2];
    intros s k k' Hk; simpl.
  - apply Hk.
  - destruct s as [|c' s]; simpl; [done|].
    intros [Hc H%Hk]%andb_true_iff. by rewrite Hc, H.
  - by apply star_space_app.
  - apply IH1. intros u. by apply IH2.
  - intros [H|H]%orb_true_iff.
    + by rewrite (IH1 _ _ _ Hk H).
    + rewrite (IH2 _ _ _ Hk H). apply orb_true_r.
Qed.

Lemma search_app_r r s t : search r s = true → search r (s ++ t) = true.
Proof.
  induction s as [|c s IH]; simpl.
  - rewrite orb_false_r. intros H.
    apply (match_here_app r [] t (λ _, true) (λ _, true)) in H; [|done].
    simpl in H. destruct t; simpl; by rewrite H.
  - intros [H|H]%orb_true_iff; apply orb_true_iff.
    + left.
      by apply (match_here_app r (c :: s) t (λ _, true) (λ _, true) (λ _ _, eq_refl)).
    + right. by apply IH.
Qed.

Lemma search_app_l r s t : search r t = true → search r (s ++ t) = true.
Proof.
  intros H. induction s as [|c s IH]; simpl; [done|].
  rewrite IH. apply orb_true_r.
Qed.

Lemma split_head sep s piece pieces :
  split sep s = piece :: pieces → ∃ t, s = piece ++ t.
Proof.
  revert piece pieces. induction s as [|c s IH]; simpl; intros piece pieces.
  - intros [= <- <-]. by exists [].
  - case_bool_decide.
    + intros [= <- <-]. by exists (c :: s).
    + destruct (split sep s) as [|piece' pieces'] eqn:Hs.
      * intros [= <- <-]. pose proof (split_nonempty sep s). done.
      * intros [= <- <-]. destruct (IH _ _ eq_refl) as [t ->]. by exists t.
Qed.

(** Every piece of a split is a stretch of the string. *)
Lemma split_elem_infix sep s piece :
  piece ∈ split sep s → ∃ s1 s2, s = s1 ++ piece ++ s2.
Proof.
  revert piece. induction s as [|c s IH]; simpl; intros piece.
  - intros ->%list_elem_of_singleton. by exists [], [].
  - case_bool_decide.
    + intros [->|Hin]%elem_of_cons.
      * by exists [], (c :: s).
      * destruct (IH _ Hin) as (s1 & s2 & ->). by exists (c :: s1), s2.
    + destruct (split sep s) as [|piece' pieces'] eqn:Hs.
      * intros ->%list_elem_of_singleton. by pose proof (split_nonempty sep s).
      * intros [->|Hin]%elem_of_cons.
        -- destruct (split_head _ _ _ _ Hs) as [t ->]. by exists [], t.
        -- destruct (IH piece) as (s1 & s2 & ->); [by right|].
           by exists (c :: s1), s2.
Qed.

(** Content in which the pattern is found nowhere has it in no line. *)
Lemma no_match_in_lines content :
  is_console_stmt content = false →
  Forall (λ line, is_console_stmt line = false) (split NL content).
Proof.
  intros Hno. apply Forall_forall. intros line Hin.
  destruct (split_elem_infix _ _ _ Hin) as (s1 & s2 & ->).
  destruct (is_console_stmt line) eqn:Hline; [|done].
  unfold is_console_stmt in *.
  assert (search console_stmt (s1 ++ line ++ s2) = true) as Hyes
    by by apply search_app_l, search_app_r.
  congruence.
Qed.

End Pattern.

(** C7. [changed] is true exactly when the newline-join of the surviving
    lines differs, as a string, from the content given; and content without
    the pattern, whether that is said of each of its lines or of the
    content as one string, comes back identical with [changed] false. *)
Theorem excise_changed_iff (content : str) :
  ((excise content).2 = true ↔
     join NL (excise_lines (split NL content)) ≠ content) ∧
  (Forall (λ line, is_console_stmt line = false) (split NL content) →
     excise content = (content, false)) ∧
  (is_console_stmt content = false → excise content = (content, false)).
Proof.
  assert (Forall (λ line, is_console_stmt line = false) (split NL content) →
          excise content = (content, false)) as Hclean.
  { intros Hno. unfold excise.
    rewrite excise_lines_clean, join_split by done.
    f_equal. apply bool_decide_false. by intros []. }
  split; [|split; [done|]].
  - unfold excise. simpl. apply bool_decide_eq_true.
  - intros Hno. by apply Hclean, no_match_in_lines.
Qed.

Lemma excise_changed_iff_witness :
  excise (lit "keep(1);" ++ NL :: lit "keep(2);")
    = (lit "keep(1);" ++ NL :: lit "keep(2);", false) ∧
  excise (lit "console.log" ++ NL :: lit "(x);")
    = (lit "console.log" ++ NL :: lit "(x);", false).
Proof.
  split.
  - apply (proj2 (proj2 (excise_changed_iff _))). reflexivity.
  - apply (proj1 (proj2 (excise_changed_iff _))). vm_compute.
    repeat constructor.
Defined.

(** C4, as amended. Over every excised range the parenthesis deltas add up
    to zero or less, unless the range runs to the last line of the file.
    (The inner loop stops as soon as the balance is not positive; a line
    that closes more than is open takes it below zero.) *)
Theorem excised_range_balance (lines : list str) (i j : nat) :
  excised lines i j →
  (balance lines i j ≤ 0)%Z ∨ j + 1 = length lines.
Proof. intros Hex%excised_spec. tauto. Qed.

Lemma overclosed_example_excised : excised overclosed_example 0 0.
Proof.
  exists []. split; [apply rtc_refl|]. split; [simpl; lia|].
  split; reflexivity.
Qed.

Lemma excised_range_balance_witness :
  excised overclosed_example 0 0 ∧
  ((balance overclosed_example 0 0 ≤ 0)%Z ∨ 0 + 1 = length overclosed_example).
Proof.
  split; [apply overclosed_example_excised|].
  apply excised_range_balance. exists [].
  split; [apply rtc_refl|]. split; [simpl; lia|]. split; reflexivity.
Defined.

(** C4 as stated fails: the range made of the one line [console.log(x))]
    is excised, its deltas add up to -1, and a line follows it. *)
Lemma excised_range_balance_zero_counterexample :
  excised overclosed_example 0 0 ∧
  ¬ (balance overclosed_example 0 0 = 0%Z ∨ 0 + 1 = length overclosed_example).
Proof.
  split; [apply overclosed_example_excised|].
  intros [H|H]; vm_compute in H; discriminate.
Qed.

(** C5, as amended. The output is the lines that lie in no excised range,
    verbatim and in their original order: every line that does not match
    the pattern and is not a continuation line of an excised statement is
    in it, and nothing else is. *)
Theorem uncovered_lines_preserved (lines : list str) :
  ∃ kept : list nat,
    kept `sublist_of` seq 0 (length lines) ∧
    excise_lines lines = line_at lines <$> kept ∧
    (∀ k, k < length lines → is_console_stmt (line_at lines k) = false →
          ¬ covered lines k → k ∈ kept) ∧
    (∀ k, k ∈ kept →
          is_console_stmt (line_at lines k) = false ∧ ¬ covered lines k).
Proof.
  destruct (excise_lines_kept lines) as (kept & Hsub & Hout & Hkept).
  exists kept. split; [done|]. split; [done|]. split.
  - intros k Hk _ Hnot. by apply Hkept.
  - intros k Hin. split; [|by apply Hkept].
    pose proof (excise_lines_no_match lines) as Hclean.
    rewrite Hout, Forall_fmap, Forall_forall in Hclean. by apply Hclean.
Qed.

(** C5 as stated fails: in the five-line example the line [  y] does not
    match the pattern, yet it is not in the output, because it continues
    the call opened two lines above. *)
Lemma unmatched_lines_preserved_counterexample :
  lit "  y" ∈ multi_line_example ∧
  is_console_stmt (lit "  y") = false ∧
  lit "  y" ∉ excise_lines multi_line_example.
Proof.
  split; [|split].
  - unfold multi_line_example. rewrite !elem_of_cons. right; right; left.
    reflexivity.
  - reflexivity.
  - intros Hin. vm_compute in Hin.
    apply list_elem_of_singleton in Hin. discriminate.
Qed.

(** C1. When the scan is at a line that has the pattern and whose own
    balance is positive, the inner cursor [j] moves down line by line,
    adding each line's delta, and stops on the first line at which the
    balance is zero or less, or on the last line of the file; it moves by
    at least one line unless [i] is the last line already. The lines [i] to
    [j] are skipped, nothing is appended, and the scan goes on at [j + 1],
    so the output is what was kept so far followed by the excision of the
    lines after [j]. On the five-line example the excised range is the
    first four lines and the output is [nextStatement();] alone. *)
Theorem multi_line_excision :
  (∀ (lines : list str) (i : nat) (new_lines : list str),
     reachable lines (i, new_lines) → i < length lines →
     is_console_stmt (line_at lines i) = true →
     (0 < paren_delta (line_at lines i))%Z →
     ∃ j,
       i ≤ j < length lines ∧
       (i + 1 < length lines → i < j) ∧
       (∀ m, i ≤ m < j → (0 < balance lines i m)%Z) ∧
       ((balance lines i j ≤ 0)%Z ∨ j + 1 = length lines) ∧
       loop_body lines (i, new_lines) = (j + 1, new_lines) ∧
       excise_lines lines = new_lines ++ excise_lines (drop (j + 1) lines)) ∧
  excised multi_line_example 0 3 ∧
  excise_lines multi_line_example = [lit "nextStatement();"] ∧
  excise (join NL multi_line_example) = (lit "nextStatement();", true).
Proof.
  split; [|split; [|split; reflexivity]].
  2: { exists []. split; [apply rtc_refl|]. split; [simpl; lia|].
       split; reflexivity. }
  intros lines i new_lines Hst Hi Hm Hopen.
  destruct (loop_body_drop lines i new_lines Hi Hm)
    as (j & _ & Hbody & Hj & Hpos & Hstop).
  exists j. split; [done|]. split.
  { intros Hmore. destruct (decide (j = i)) as [->|]; [|lia].
    rewrite balance_same in Hstop by done. lia. }
  repeat (split; [done|]).
  apply reachable_suffix. rewrite <- Hbody. by apply reachable_step.
Qed.

Lemma multi_line_excision_witness :
  ∃ j,
    0 ≤ j < length multi_line_example ∧
    (0 + 1 < length multi_line_example → 0 < j) ∧
    (∀ m, 0 ≤ m < j → (0 < balance multi_line_example 0 m)%Z) ∧
    ((balance multi_line_example 0 j ≤ 0)%Z ∨ j + 1 = length multi_line_example) ∧
    loop_body multi_line_example (0, []) = (j + 1, []) ∧
    excise_lines multi_line_example = [] ++ excise_lines (drop (j + 1) multi_line_example).
Proof.
  apply (proj1 multi_line_excision).
  - apply rtc_refl.
  - simpl. lia.
  - reflexivity.
  - reflexivity.
Defined.

Section Unbalanced.
Implicit Types (lines : list str) (i j k m : nat).

Lemma balance_split lines i m j :
  i ≤ m → m < j → j < length lines →
  balance lines i j = (balance lines i m + balance lines (m + 1) j)%Z.
Proof.
  intros Him Hmj Hj.
  replace j with (m + 1 + (j - m - 1)) in * by lia.
  induction (j - m - 1) as [|d IH].
  - rewrite Nat.add_0_r in *.
    rewrite balance_step, balance_same by lia. done.
  - replace (m + 1 + S d) with (m + 1 + d + 1) in * by lia.
    rewrite (balance_step lines i), (balance_step lines (m + 1)) by lia.
    rewrite IH by lia. lia.
Qed.

(** Once the scan is past a pattern line whose balance never returns to
    zero, it is at the end of the file, having excised a range that
    starts no later than that line and ends on the last line. *)
Lemma never_closed_invariant lines k :
  k < length lines → is_console_stmt (line_at lines k) = true →
  (∀ m, k ≤ m < length lines → (0 < balance lines k m)%Z) →
  ∀ st, reachable lines st →
    st.1 ≤ k ∨
    st.1 = length lines ∧
      ∃ i new_lines,
        i ≤ k ∧ excised lines i (length lines - 1) ∧
        reachable lines (i, new_lines) ∧ st.2 = new_lines.
Proof.
  intros Hk Hm Hopen. apply reachable_invariant; [left; simpl; lia|].
  intros [c new_lines] Hst Hguard HP. simpl in Hguard.
  destruct HP as [Hc|[Hend _]]; [simpl in Hc | simpl in Hend; lia].
  destruct (is_console_stmt (line_at lines c)) eqn:Hmc.
  - destruct (loop_body_drop lines c new_lines Hguard Hmc)
      as (j & Hj & -> & Hcj & Hpos & Hstop). simpl.
    destruct (decide (j + 1 ≤ k)) as [|Hpast]; [by left|]. right.
    assert (j + 1 = length lines) as Hlast.
    { destruct Hstop as [Hneg|]; [exfalso|done].
      pose proof (Hopen j ltac:(lia)) as Hkj.
      destruct (decide (c = k)) as [->|Hne]; [lia|].
      rewrite (balance_split lines c (k - 1) j) in Hneg by lia.
      pose proof (Hpos (k - 1) ltac:(lia)).
      replace (k - 1 + 1) with k in Hneg by lia. lia. }
    split; [done|]. exists c, new_lines. split; [done|].
    split; [|done]. exists new_lines.
    replace (length lines - 1) with j by lia. done.
  - rewrite loop_body_keep by done. simpl. left.
    destruct (decide (c = k)) as [->|]; [congruence | lia].
Qed.

End Unbalanced.

(** C3. If a line has the pattern and the balance counted from it stays
    positive on every line down to the end of the file, then the scan ends
    with its cursor at the end of the file after excising a range that
    starts at or before that line and whose closing cursor is the last
    line; every line from that line on lies in the range, and the output
    is made of lines above it only. The computation is total: no error
    arises. When the scan arrives at that line itself, the single pass
    from there takes the cursor to the end and appends nothing. *)
Theorem never_closed_consumes_rest (lines : list str) (k : nat) :
  k < length lines → is_console_stmt (line_at lines k) = true →
  (∀ m, k ≤ m < length lines → (0 < balance lines k m)%Z) →
  (∃ i,
     i ≤ k ∧ excised lines i (length lines - 1) ∧
     (∀ k', k ≤ k' < length lines → covered lines k') ∧
     ∃ kept : list nat,
       kept `sublist_of` seq 0 i ∧ excise_lines lines = line_at lines <$> kept) ∧
  (while_outer lines (0, [])).1 = length lines ∧
  (∀ new_lines,
     reachable lines (k, new_lines) →
     loop_body lines (k, new_lines) = (length lines, new_lines) ∧
     excise_lines lines = new_lines).
Proof.
  intros Hk Hm Hopen. split; [|split; [apply final_cursor|]].
  - destruct (never_closed_invariant lines k Hk Hm Hopen _ (reachable_final lines))
      as [Hle|(_ & i & new_lines & Hi & Hex & Hst & Hout)];
      [rewrite final_cursor in Hle; lia|].
    exists i. split; [done|]. split; [done|]. split.
    + intros k' Hk'. exists i, (length lines - 1). split; [done | lia].
    + destruct (reachable_kept lines _ Hst) as (kept & Hsub & Hnl & _).
      exists kept. split; [done|]. unfold excise_lines. by rewrite Hout.
  - intros new_lines Hst.
    destruct (loop_body_drop lines k new_lines Hk Hm)
      as (j & _ & Hbody & Hj & _ & Hstop).
    assert (j + 1 = length lines) as Hlast.
    { destruct Hstop as [Hneg|]; [|done]. specialize (Hopen j ltac:(lia)). lia. }
    rewrite Hlast in Hbody. split; [done|].
    symmetry. apply (reachable_at_end lines (length lines, new_lines)); [|done].
    rewrite <- Hbody. by apply reachable_step.
Qed.

Lemma never_closed_consumes_rest_witness :
  (∃ i,
     i ≤ 1 ∧ excised unclosed_example i (length unclosed_example - 1) ∧
     (∀ k', 1 ≤ k' < length unclosed_example → covered unclosed_example k') ∧
     ∃ kept : list nat,
       kept `sublist_of` seq 0 i ∧
       excise_lines unclosed_example = line_at unclosed_example <$> kept) ∧
  (while_outer unclosed_example (0, [])).1 = length unclosed_example ∧
  (∀ new_lines,
     reachable unclosed_example (1, new_lines) →
     loop_body unclosed_example (1, new_lines) = (length unclosed_example, new_lines) ∧
     excise_lines unclosed_example = new_lines).
Proof.
  apply (never_closed_consumes_rest unclosed_example 1).
  - simpl. lia.
  - reflexivity.
  - intros m Hm. simpl in Hm.
    assert (m = 1 ∨ m = 2 ∨ m = 3) as [->|[->| ->]] by lia; reflexivity.
Defined.

(** C6. When the scan is at a line that has the pattern and whose own
    balance is zero or less, the pass drops that line alone: the cursor
    moves by one and nothing is appended. No other line is affected: the
    output is what was kept from the lines before followed by the excision
    of the lines after, which is also the output for the file without that
    line. In particular a following line without the pattern comes next in
    the output, verbatim, and a preceding line that lies in no excised
    range is the last line kept before it. *)
Theorem single_line_excision
    (before : list str) (line : str) (after new_lines : list str) :
  reachable (before ++ line :: after) (length before, new_lines) →
  is_console_stmt line = true → (paren_delta line ≤ 0)%Z →
  loop_body (before ++ line :: after) (length before, new_lines)
    = (length before + 1, new_lines) ∧
  excise_lines (before ++ line :: after) = new_lines ++ excise_lines after ∧
  excise_lines (before ++ after) = new_lines ++ excise_lines after ∧
  (∀ next rest,
     after = next :: rest → is_console_stmt next = false →
     excise_lines (before ++ line :: after)
       = new_lines ++ next :: excise_lines rest) ∧
  (∀ above prev,
     before = above ++ [prev] →
     ¬ covered (before ++ line :: after) (length above) →
     ∃ earlier, new_lines = earlier ++ [prev]).
Proof.
  intros Hst Hm Hle. set (lines := before ++ line :: after) in *.
  assert (line_at lines (length before) = line) as Hline
    by by apply list_lookup_total_middle.
  assert (length before < length lines) as Hi
    by (unfold lines; rewrite length_app; simpl; lia).
  assert (loop_body lines (length before, new_lines)
          = (length before + 1, new_lines)) as Hbody.
  { destruct (loop_body_drop lines (length before) new_lines Hi)
      as (j & _ & -> & Hj & Hpos & _); [by rewrite Hline|].
    destruct (decide (j = length before)) as [->|Hne]; [done|].
    specialize (Hpos (length before) ltac:(lia)).
    rewrite balance_same, Hline in Hpos by done. lia. }
  assert (excise_lines lines = new_lines ++ excise_lines after) as Hout.
  { assert (reachable lines (length before + 1, new_lines)) as Hnext
      by (rewrite <- Hbody; by apply reachable_step).
    rewrite (reachable_suffix _ _ _ Hnext). unfold lines.
    by rewrite drop_app_add'. }
  split; [done|]. split; [done|]. split; [|split].
  - assert (reachable (before ++ after) (length before, new_lines)) as Hst'.
    { apply (reachable_same_prefix lines _ (length before)); try done.
      - unfold lines. by rewrite !take_app_length.
      - rewrite length_app. lia. }
    rewrite (reachable_suffix _ _ _ Hst'). by rewrite drop_app_length.
  - intros next rest -> Hno. by rewrite Hout, excise_lines_keep.
  - intros above prev Hbefore Hnot.
    destruct (reachable_kept lines _ Hst) as (kept & Hsub & Hnl & Hkept).
    simpl in Hsub, Hnl, Hkept.
    assert (length before = S (length above)) as Hlen
      by (rewrite Hbefore, length_app; simpl; lia).
    rewrite Hlen, seq_S in Hsub. simpl in Hsub.
    apply sublist_app_r in Hsub as (kept1 & kept2 & -> & Hsub1 & Hsub2).
    assert (length above ∈ kept1 ++ kept2) as Hin by (apply Hkept; split; [lia|done]).
    apply elem_of_app in Hin as [Hin|Hin].
    + eapply elem_of_sublist in Hin; [|done]. apply elem_of_seq in Hin. lia.
    + apply sublist_cons_r in Hsub2 as [->%sublist_nil_r|(kept' & -> & ->%sublist_nil_r)].
      * by apply elem_of_nil in Hin.
      * exists (line_at lines <$> kept1). rewrite Hnl, fmap_app. simpl.
        do 2 f_equal. unfold lines. rewrite Hbefore, <- app_assoc.
        by apply list_lookup_total_middle.
Qed.

Lemma single_line_excision_witness :
  excise_lines single_line_example = [lit "before();"; lit "after();"].
Proof.
  pose proof (single_line_excision
    [lit "before();"] (lit "  console.debug(x);") [lit "after();"] [lit "before();"])
    as Hthm.
  destruct Hthm as (_ & _ & _ & Hnext & _).
  - change (length [lit "before();"], [lit "before();"])
      with (loop_body single_line_example (0, [])).
    apply reachable_step; [apply rtc_refl | simpl; lia].
  - reflexivity.
  - vm_compute. discriminate.
  - apply (Hnext (lit "after();") []); reflexivity.
Defined.

(** ** backend/extract_guest_method.py *)

Import ExtractGuestMethod.

(** C8. The splice is the first [start] lines, then the block, then the
    lines from [stop] on; the script's own [new_lines] is the instance with
    bounds 77 and 783 and the delegation text as a one-element block. With
    bounds 5 and 10 on a file of twenty lines, the result has
    [20 - 5 + len(block)] lines, its first five are the first five of the
    input and its last ten are the last ten of the input. *)
Theorem splice_exact (lines : list str) (start stop : nat) (block : list str) :
  splice lines start stop block = take start lines ++ block ++ drop stop lines ∧
  new_lines lines = take 77 lines ++ [delegation] ++ drop 783 lines ∧
  (length lines = 20 →
     length (splice lines 5 10 block) = 20 - 5 + length block ∧
     take 5 (splice lines 5 10 block) = take 5 lines ∧
     drop (length (splice lines 5 10 block) - 10) (splice lines 5 10 block)
       = drop 10 lines).
Proof.
  assert (∀ a b blk, splice lines a b blk = take a lines ++ blk ++ drop b lines)
    as Hsplice.
  { intros a b blk. unfold splice, slice_from, slice.
    rewrite drop_0, Nat.sub_0_r. do 2 f_equal.
    apply take_ge. by rewrite length_drop. }
  split; [apply Hsplice|]. split; [apply Hsplice|].
  intros Hlen. rewrite Hsplice.
  assert (length (take 5 lines) = 5) as Htake by (rewrite length_take; lia).
  assert (length (drop 10 lines) = 10) as Hdrop by (rewrite length_drop; lia).
  split; [|split].
  - rewrite !length_app, Htake, Hdrop. lia.
  - by rewrite take_app_length'.
  - rewrite app_assoc. apply drop_app_length'.
    rewrite !length_app, Htake, Hdrop. lia.
Qed.

Lemma splice_exact_witness :
  let lines := (λ n, [N.of_nat n]) <$> seq 0 20 in
  length lines = 20 ∧
  length (splice lines 5 10 [delegation]) = 20 - 5 + length [delegation] ∧
  take 5 (splice lines 5 10 [delegation]) = take 5 lines ∧
  drop (length (splice lines 5 10 [delegation]) - 10) (splice lines 5 10 [delegation])
    = drop 10 lines.
Proof.
  split; [reflexivity|].
  apply (splice_exact ((λ n, [N.of_nat n]) <$> seq 0 20) 5 10 [delegation]).
  reflexivity.
Defined.

(** ** The batch run *)

Import IO Batch.

Section Loops.
Implicit Types (w : world).

Lemma for_each_ext {A S} (xs : list A) (body body' : A → S → M S) acc w :
  (∀ x acc w, body x acc w = body' x acc w) →
  for_each xs body acc w = for_each xs body' acc w.
Proof.
  intros Hext. revert acc w. induction xs as [|x xs IH]; intros acc w; [done|].
  simpl. unfold mbind, M_bind. rewrite Hext.
  destruct (body' x acc w) as [[e|acc'] w']; [done | apply IH].
Qed.

Lemma for_each_app {A S} (xs ys : list A) (body : A → S → M S) acc w :
  for_each (xs ++ ys) body acc w =
    (acc' ← for_each xs body acc; for_each ys body acc') w.
Proof.
  revert acc w. induction xs as [|x xs IH]; intros acc w; [done|].
  simpl. unfold mbind, M_bind in *.
  destruct (body x acc w) as [[e|acc'] w']; [done | apply IH].
Qed.

(** A loop nested in a loop is one loop over the concatenated items. *)
Lemma for_each_nested {A B S} (xs : list A) (f : A → list B)
    (body : B → S → M S) acc w :
  for_each xs (λ x acc, for_each (f x) body acc) acc w =
    for_each (xs ≫= f) body acc w.
Proof.
  revert acc w. induction xs as [|x xs IH]; intros acc w; [done|].
  change ((x :: xs) ≫= f) with (f x ++ (xs ≫= f)).
  rewrite for_each_app. simpl. unfold mbind at 1 2, M_bind.
  destruct (for_each (f x) body acc w) as [[e|acc'] w']; [done | apply IH].
Qed.

(** A loop whose body is guarded by an [if] is a loop over the items
    that pass the test. *)
Lemma for_each_guarded {A S} (xs : list A) (test : A → bool)
    (body : A → S → M S) acc w :
  for_each xs (λ x acc, if test x then body x acc else mret acc) acc w =
    for_each (filter (λ x, test x = true) xs) body acc w.
Proof.
  revert acc w. induction xs as [|x xs IH]; intros acc w; [done|].
  simpl. destruct (test x) eqn:Htest.
  - rewrite filter_cons_True by done. simpl. unfold mbind, M_bind.
    destruct (body x acc w) as [[e|acc'] w']; [done | apply IH].
  - rewrite filter_cons_False by (by rewrite Htest). apply IH.
Qed.

Lemma M_bind_congr {A B} (m m' : M A) (k : A → M B) w :
  m w = m' w → (m ≫= k) w = (m' ≫= k) w.
Proof. unfold mbind, M_bind. by intros ->. Qed.

Lemma for_each_one {A S} (x : A) (body : A → S → M S) acc w :
  for_each [x] body acc w = body x acc w.
Proof.
  simpl. unfold mbind, M_bind. by destruct (body x acc w) as [[e|acc'] w'].
Qed.

(** The three nested loops of [main] are one loop over its candidate
    paths. *)
Lemma count_cleaned_candidates path_exists os_walk w :
  count_cleaned path_exists os_walk w =
    for_each (candidates path_exists os_walk) clean_file 0 w.
Proof.
  unfold count_cleaned, candidates.
  rewrite for_each_guarded, <- for_each_nested.
  apply for_each_ext. intros directory acc w1. rewrite <- for_each_nested.
  apply for_each_ext. intros [[root dirs] files] acc' w2.
  rewrite for_each_guarded, <- for_each_nested.
  apply for_each_ext. intros file acc'' w3. by rewrite for_each_one.
Qed.

Lemma count_true_cons (result : bool) results :
  count_true (result :: results) =
    (if result then 1 else 0) + count_true results.
Proof. by destruct result. Qed.

End Loops.

(** C9. The [try]/[except] of [remove_console_logs] does not isolate
    every failure: the handler itself prints, and when that [print]
    raises, the exception leaves [remove_console_logs], ends the loops of
    [main], and the files after it are never processed.

    First run: the standard output is encoded as ASCII and [b.ts], the
    first file walked, cannot be opened. The handler's message starts
    with U+274C, which ASCII cannot encode; the call raises, [main]
    raises, nothing is printed, and [a.ts] and [c.ts] keep their console
    statements.

    Second run: the standard output is encoded as UTF-8 and the second
    file walked has a name that is not UTF-8 and content that is not
    UTF-8. Reading it raises, the handler's message holds the name's
    surrogate, which UTF-8 cannot encode; [main] raises after cleaning
    [a.ts], prints no summary, and [c.ts] keeps its console statement. *)
Theorem handler_print_failure_escapes :
  let ascii_error :=
    UnicodeEncodeError (lit "'ascii' codec can't encode character '\u274c' in position 0: ordinal not in range(128)") in
  let utf8_error :=
    UnicodeEncodeError (lit "'utf-8' codec can't encode character '\udce9' in position 84: surrogates not allowed") in
  let call1 := remove_console_logs (in_backend (lit "b.ts")) ascii_example in
  let run1 :=
    main only_backend (walk_flat [lit "b.ts"; lit "a.ts"; lit "c.ts"])
      ascii_example in
  let run2 :=
    main only_backend (walk_flat [lit "a.ts"; odd_name; lit "c.ts"])
      odd_name_example in
  candidates only_backend (walk_flat [lit "b.ts"; lit "a.ts"; lit "c.ts"]) =
    [in_backend (lit "b.ts"); in_backend (lit "a.ts"); in_backend (lit "c.ts")] ∧
  (call1.1 = inl ascii_error ∧ stdout call1.2 = [] ∧ fs call1.2 = three_files) ∧
  (run1.1 = inl ascii_error ∧ stdout run1.2 = [] ∧ fs run1.2 = three_files) ∧
  (run2.1 = inl utf8_error ∧
   stdout run2.2 = [msg_cleaned (in_backend (lit "a.ts"))] ∧
   fs run2.2 =
     <[in_backend (lit "a.ts") := File (inr (lit "a();")) Written]>
       (fs odd_name_example)) ∧
  (three_files !! in_backend (lit "c.ts") =
     Some (File (inr (lit "c();" ++ NL :: lit "console.info(2);")) Written) ∧
   fs odd_name_example !! in_backend (lit "c.ts") =
     Some (File (inr (lit "c();" ++ NL :: lit "console.info(2);")) Written) ∧
   RemoveConsoleLogs.excise (lit "c();" ++ NL :: lit "console.info(2);") =
     (lit "c();", true)).
Proof. cbv zeta. repeat split; vm_compute; reflexivity. Qed.

(** With a standard output encoded as UTF-8 and names that are UTF-8, the
    failure of [b.ts] in the middle leaves [a.ts] and [c.ts] cleaned and
    counted. *)
Example isolation_example_run :
  let run :=
    main only_backend (walk_flat [lit "a.ts"; lit "b.ts"; lit "c.ts"])
      isolation_example in
  run.1 = inr () ∧
  stdout run.2 =
    [ msg_cleaned (in_backend (lit "a.ts"));
      msg_error (in_backend (lit "b.ts"))
        (OSError (lit "[Errno 13] Permission denied: "
                  ++ plain_repr (in_backend (lit "b.ts"))));
      msg_cleaned (in_backend (lit "c.ts"));
      msg_complete 2 ] ∧
  fs run.2 =
    <[in_backend (lit "a.ts") := File (inr (lit "a();")) Written]>
    (<[in_backend (lit "c.ts") := File (inr (lit "c();")) Written]>
     three_files).
Proof. cbv zeta. repeat split; vm_compute; reflexivity. Qed.
(** ** Further properties of the excision *)

Section Composition.
Implicit Types (lines pre rest conts : list str) (line first : str) (content : str).

(** A pattern line at the head goes, together with some of the lines
    after it. *)
Lemma excise_lines_match_head first rest :
  is_console_stmt first = true →
  ∃ k, excise_lines (first :: rest) = excise_lines (drop k rest).
Proof.
  intros Hm.
  destruct (loop_body_drop (first :: rest) 0 []) as (j & _ & Hbody & _);
    [simpl; lia | done |].
  exists j.
  assert (reachable (first :: rest) (j + 1, [])) as Hst.
  { rewrite <- Hbody. apply reachable_step; [apply rtc_refl | simpl; lia]. }
  rewrite (reachable_suffix _ _ _ Hst). simpl.
  by replace (j + 1) with (S j) by lia.
Qed.

Lemma excise_lines_length lines : length (excise_lines lines) ≤ length lines.
Proof. apply sublist_length, excise_lines_sublist. Qed.

Lemma excise_lines_shorter lines :
  Exists (λ line, is_console_stmt line = true) lines →
  length (excise_lines lines) < length lines.
Proof.
  induction 1 as [line lines Hm|line lines _ IH].
  - destruct (excise_lines_match_head line lines Hm) as [k ->].
    pose proof (excise_lines_length (drop k lines)) as Hlen.
    rewrite length_drop in Hlen. simpl. lia.
  - destruct (is_console_stmt line) eqn:Hm.
    + destruct (excise_lines_match_head line lines Hm) as [k ->].
      pose proof (excise_lines_length (drop k lines)) as Hlen.
      rewrite length_drop in Hlen. simpl. lia.
    + rewrite excise_lines_keep by done. simpl. lia.
Qed.

Lemma excise_no_pattern content :
  Forall (λ line, is_console_stmt line = false) (split NL content) →
  excise content = (content, false).
Proof.
  intros Hno. unfold excise.
  rewrite excise_lines_clean, join_split by done.
  f_equal. apply bool_decide_false. by intros [].
Qed.

Lemma fewer_lines_differ content :
  length (excise_lines (split NL content)) < length (split NL content) →
  join NL (excise_lines (split NL content)) ≠ content.
Proof.
  intros Hlt Heq.
  pose proof (excise_lines_no_newline content) as Hnl.
  destruct (excise_lines (split NL content)) as [|line new_lines] eqn:Hout.
  - simpl in Heq. subst content. vm_compute in Hout. discriminate.
  - apply (f_equal (split NL)) in Heq. rewrite split_join in Heq by done.
    rewrite <- Heq in Hlt. lia.
Qed.

End Composition.

(** X1. [changed] is true exactly when some line of the content has the
    pattern, and exactly when the output has fewer lines than the input:
    comparing the contents and comparing the line counts decide the same
    thing. *)
Theorem changed_iff_pattern_line (content : str) :
  ((excise content).2 = true ↔
     Exists (λ line, is_console_stmt line = true) (split NL content)) ∧
  ((excise content).2 = true ↔
     length (excise_lines (split NL content)) < length (split NL content)).
Proof.
  assert ((excise content).2 = true →
          Exists (λ line, is_console_stmt line = true) (split NL content)) as H1.
  { intros Hchanged.
    destruct (decide (Exists (λ line, is_console_stmt line = true)
                        (split NL content))) as [|Hnone]; [done|].
    apply not_Exists_Forall in Hnone; [|apply _].
    rewrite excise_no_pattern in Hchanged; [done|].
    eapply Forall_impl; [exact Hnone|]. intros line Hline. simpl in Hline.
    by destruct (is_console_stmt line). }
  assert (length (excise_lines (split NL content)) < length (split NL content) →
          (excise content).2 = true) as H2.
  { intros Hlt%fewer_lines_differ. unfold excise. simpl.
    by apply bool_decide_eq_true. }
  split; split; auto using excise_lines_shorter.
Qed.

Lemma excise_output_clean (content : str) :
  Forall (λ line, is_console_stmt line = false) (split NL (excise content).1).
Proof.
  unfold excise. simpl.
  pose proof (excise_lines_no_match (split NL content)) as Hclean.
  pose proof (excise_lines_no_newline content) as Hnl.
  destruct (excise_lines (split NL content)) as [|line new_lines] eqn:Hout.
  - by repeat constructor.
  - by rewrite split_join.
Qed.

(** X2. No line of the cleaned content has the pattern, whatever the
    content given. *)
Theorem cleaned_content_has_no_pattern_line (content : str) :
  Forall (λ line, is_console_stmt line = false) (split NL (excise content).1) ∧
  ¬ Exists (λ line, is_console_stmt line = true) (split NL (excise content).1).
Proof.
  pose proof (excise_output_clean content) as Hclean. split; [done|].
  intros Hsome. apply Exists_exists in Hsome as (line & Hin & Hyes).
  rewrite Forall_forall in Hclean. specialize (Hclean line Hin). congruence.
Qed.

(** X3. Lines without the pattern at the top of a file are kept as they
    are, and what follows them is excised as if it were a file of its
    own. *)
Theorem clean_prefix_kept (pre rest : list str) :
  Forall (λ line, is_console_stmt line = false) pre →
  excise_lines (pre ++ rest) = pre ++ excise_lines rest.
Proof.
  induction 1 as [|line pre Hno _ IH]; [done|].
  simpl. by rewrite excise_lines_keep, IH.
Qed.

Lemma clean_prefix_kept_witness :
  excise_lines ([lit "a();"; lit "b();"] ++ multi_line_example)
    = [lit "a();"; lit "b();"] ++ excise_lines multi_line_example.
Proof. apply clean_prefix_kept. repeat constructor. Defined.

(** X4. A complete statement at the top of a file goes as a whole and
    takes nothing else with it: when the first line has the pattern, the
    deltas of the first line and any proper run of its continuation lines
    add up to more than zero, and those of all of them to zero or less,
    the output is the excision of the lines after them. *)
Theorem complete_statement_removed (first : str) (conts rest : list str) :
  is_console_stmt first = true →
  (∀ n, n < length conts → (0 < delta_sum (first :: take n conts))%Z) →
  (delta_sum (first :: conts) ≤ 0)%Z →
  excise_lines (first :: conts ++ rest) = excise_lines rest.
Proof.
  intros Hm Hopen Hclosed. set (lines := first :: conts ++ rest).
  assert (∀ m, m ≤ length conts →
            balance lines 0 m = delta_sum (first :: take m conts)) as Hbal.
  { intros m Hmle. unfold balance, slice, lines. rewrite drop_0.
    replace (m + 1 - 0) with (S m) by lia. simpl.
    by rewrite take_app_le. }
  destruct (loop_body_drop lines 0 []) as (j & _ & Hbody & Hj & Hpos & Hstop);
    [simpl; lia | done |].
  assert (length lines = S (length conts + length rest)) as Hlen
    by (unfold lines; simpl; by rewrite length_app).
  assert (j = length conts) as ->.
  { destruct (decide (j < length conts)) as [Hlt|Hge].
    - destruct Hstop as [Hneg|]; [|lia].
      rewrite Hbal in Hneg by lia. specialize (Hopen j Hlt). lia.
    - destruct (decide (j = length conts)) as [|Hne]; [done|].
      specialize (Hpos (length conts) ltac:(lia)).
      rewrite Hbal, take_ge in Hpos by lia. lia. }
  assert (reachable lines (length conts + 1, [])) as Hst.
  { rewrite <- Hbody. apply reachable_step; [apply rtc_refl | simpl; lia]. }
  rewrite (reachable_suffix _ _ _ Hst). simpl. unfold lines.
  replace (length conts + 1) with (S (length conts)) by lia. simpl.
  by rewrite drop_app_length.
Qed.

Lemma complete_statement_removed_witness :
  excise_lines
    (lit "console.log(" :: [lit "  f(x),"; lit "  y"; lit ");"] ++ [lit "next();"])
    = excise_lines [lit "next();"].
Proof.
  apply complete_statement_removed.
  - reflexivity.
  - intros n Hn. simpl in Hn.
    assert (n = 0 ∨ n = 1 ∨ n = 2) as [->|[->| ->]] by lia; reflexivity.
  - vm_compute. discriminate.
Defined.

(** ** What the pattern matches *)

Section PatternSpec.
Implicit Types (r : regex) (s t w rest : str) (k : str → bool).

Lemma star_space_spec s k :
  star_space s k = true ↔
  ∃ ws rest, s = ws ++ rest ∧ Forall (λ c, isspace c = true) ws ∧ k rest = true.
Proof.
  split.
  - induction s as [|c s IH]; simpl.
    + intros Hk. by exists [], [].
    + intros [[Hc Hs]%andb_true_iff | Hk]%orb_true_iff.
      * destruct (IH Hs) as (ws & rest & -> & Hws & Hk).
        exists (c :: ws), rest. split; [done|]. split; [by constructor | done].
      * by exists [], (c :: s).
  - intros (ws & rest & -> & Hws & Hk).
    induction Hws as [|c ws Hc _ IH]; simpl.
    + by apply star_space_stop.
    + by rewrite Hc, IH.
Qed.

Lemma match_here_Lit w s k :
  match_here (Lit w) s k = true ↔ ∃ rest, s = w ++ rest ∧ k rest = true.
Proof.
  revert s. induction w as [|c w IH]; intros s; simpl.
  - split; [intros Hk; by exists s | by intros (rest & -> & Hk)].
  - destruct s as [|c' s]; simpl.
    + split; [done | by intros (rest & ? & _)].
    + rewrite andb_true_iff, bool_decide_eq_true, IH. split.
      * intros (-> & rest & -> & Hk). by exists rest.
      * intros (rest & [= -> ->] & Hk). split; [done | by exists rest].
Qed.

Lemma match_here_Chr c s k :
  match_here (Chr c) s k = true ↔ ∃ rest, s = c :: rest ∧ k rest = true.
Proof.
  destruct s as [|c' s]; simpl.
  - split; [done | by intros (rest & ? & _)].
  - rewrite andb_true_iff, bool_decide_eq_true. split.
    + intros [-> Hk]. by exists s.
    + by intros (rest & [= -> ->] & Hk).
Qed.

Lemma search_spec r s :
  search r s = true ↔
  ∃ pre suf, s = pre ++ suf ∧ match_here r suf (λ _, true) = true.
Proof.
  split.
  - induction s as [|c s IH]; simpl.
    + rewrite orb_false_r. intros H. by exists [], [].
    + intros [H|H]%orb_true_iff.
      * by exists [], (c :: s).
      * destruct (IH H) as (pre & suf & -> & Hm). by exists (c :: pre), suf.
  - intros (pre & suf & -> & Hm). apply search_app_l.
    destruct suf; simpl; by rewrite Hm.
Qed.

End PatternSpec.

(** X5. A line is taken for a console statement exactly when somewhere in
    it stands [console.], then [log], [debug] or [info], then any run of
    whitespace, then an opening parenthesis. What comes before and after in
    the line plays no part. *)
Theorem console_stmt_spec (line : str) :
  is_console_stmt line = true ↔
  ∃ pre kind ws post,
    line = pre ++ lit "console." ++ kind ++ ws ++ LPAREN :: post ∧
    kind ∈ [lit "log"; lit "debug"; lit "info"] ∧
    Forall (λ c, isspace c = true) ws.
Proof.
  unfold is_console_stmt. rewrite search_spec. split.
  - intros (pre & suf & -> & Hm). unfold console_stmt in Hm.
    cbn [match_here] in Hm.
    apply star_space_spec in Hm as (ws0 & rest0 & -> & Hws0 & Hm).
    apply match_here_Lit in Hm as (rest1 & -> & Hm).
    destruct rest1 as [|c rest2]; [done|].
    apply andb_true_iff in Hm as [->%bool_decide_eq_true Hm].
    assert (∃ kind rest3,
              rest2 = kind ++ rest3 ∧
              kind ∈ [lit "log"; lit "debug"; lit "info"] ∧
              star_space rest3 (λ s', match_here (Chr LPAREN) s' (λ _, true)) = true)
      as (kind & rest3 & -> & Hkind & Hm').
    { apply orb_true_iff in Hm as [Hm|Hm];
        [|apply orb_true_iff in Hm as [Hm|Hm]];
        apply match_here_Lit in Hm as (rest3 & -> & Hm);
        eexists _, rest3; (split; [reflexivity|]); (split; [|exact Hm]);
        rewrite !elem_of_cons; auto. }
    apply star_space_spec in Hm' as (ws & rest4 & -> & Hws & Hm').
    apply match_here_Chr in Hm' as (post & -> & _).
    exists (pre ++ ws0), kind, ws, post. split; [|done].
    change (lit "console.") with (lit "console" ++ [46%N]).
    by rewrite <- !app_assoc.
  - intros (pre & kind & ws & post & -> & Hkind & Hws).
    exists pre, (lit "console." ++ kind ++ ws ++ LPAREN :: post).
    split; [done|]. unfold console_stmt. cbn [match_here].
    apply star_space_spec. exists [], (lit "console." ++ kind ++ ws ++ LPAREN :: post).
    split; [done|]. split; [done|].
    apply match_here_Lit. exists (46%N :: kind ++ ws ++ LPAREN :: post).
    split; [change (lit "console.") with (lit "console" ++ [46%N]);
            by rewrite <- app_assoc|].
    rewrite bool_decide_true by done. cbn [andb].
    assert (star_space (ws ++ LPAREN :: post)
              (λ s', match_here (Chr LPAREN) s' (λ _, true)) = true) as Htail.
    { apply star_space_spec. exists ws, (LPAREN :: post).
      split; [done|]. split; [done|]. apply match_here_Chr. by exists post. }
    rewrite !elem_of_cons, elem_of_nil in Hkind.
    destruct Hkind as [->|[->|[->|[]]]]; apply orb_true_iff.
    + left. apply match_here_Lit. by eexists.
    + right. apply orb_true_iff. left. apply match_here_Lit. by eexists.
    + right. apply orb_true_iff. right. apply match_here_Lit. by eexists.
Qed.

(** ** One call of [remove_console_logs] *)

Section Text.
Implicit Types (s content line : str) (c : char).

(** Text that was read holds no carriage return, and reading text
    without one changes nothing. *)
Lemma universal_newlines_no_cr after_cr s : CR ∉ universal_newlines after_cr s.
Proof.
  revert after_cr. induction s as [|c s IH]; intros after_cr; simpl.
  - apply not_elem_of_nil.
  - case_bool_decide as Hcr.
    + apply not_elem_of_cons. split; [done | apply IH].
    + destruct (bool_decide (c = NL) && after_cr); [apply IH|].
      apply not_elem_of_cons. split; [congruence | apply IH].
Qed.

Lemma universal_newlines_id s : CR ∉ s → universal_newlines false s = s.
Proof.
  induction s as [|c s IH]; [done|]. intros [Hc Hs]%not_elem_of_cons. simpl.
  rewrite bool_decide_eq_false_2 by congruence.
  by rewrite andb_false_r, IH.
Qed.

Lemma elem_of_join c sep pieces :
  c ∈ join sep pieces → c = sep ∨ ∃ piece, piece ∈ pieces ∧ c ∈ piece.
Proof.
  induction pieces as [|piece rest IH]; simpl; [by intros ?%elem_of_nil|].
  destruct rest as [|piece' rest'].
  - intros Hc. right. exists piece. split; [left | done].
  - intros [Hc|Hc]%elem_of_app.
    + right. exists piece. split; [left | done].
    + apply elem_of_cons in Hc as [->|Hc]; [by left|].
      destruct (IH Hc) as [->|(p & Hp & Hcp)]; [by left|].
      right. exists p. split; [by right | done].
Qed.

(** Cleaning brings in no carriage return. *)
Lemma excise_no_cr content : CR ∉ content → CR ∉ (excise content).1.
Proof.
  intros Hno. unfold excise. simpl.
  intros [Hnl|(piece & Hpiece & Hc)]%elem_of_join; [done|].
  pose proof (elem_of_sublist _ _ _ Hpiece
                (excise_lines_sublist (split NL content))) as Hin.
  destruct (split_elem_infix _ _ _ Hin) as (s1 & s2 & ->).
  apply Hno. rewrite !elem_of_app. auto.
Qed.

Lemma take_no_cr k s : CR ∉ s → CR ∉ take k s.
Proof.
  intros Hno Hin. apply Hno.
  by apply (elem_of_sublist _ _ _ Hin), sublist_take.
Qed.

(** The lines of the first [k] characters of a text are, position by
    position, beginnings of the lines of the text. *)
Lemma split_take_lookup s k i line' :
  split NL (take k s) !! i = Some line' →
  ∃ line, split NL s !! i = Some line ∧ line' `prefix_of` line.
Proof.
  revert k i line'. induction s as [|c s IH]; intros k i line'.
  - rewrite take_nil. simpl. intros Hi. exists line'. by split.
  - destruct k as [|k].
    + simpl take. simpl split at 1.
      destruct i as [|i]; [|done]. intros [= <-].
      destruct (split NL (c :: s)) as [|line lines] eqn:Hs;
        [by apply split_nonempty in Hs|].
      exists line. split; [done | apply prefix_nil].
    + simpl. case_bool_decide as Hc.
      * destruct i as [|i]; simpl.
        -- intros [= <-]. by exists [].
        -- apply IH.
      * destruct (split NL (take k s)) as [|p' ps'] eqn:Ht;
          [by apply split_nonempty in Ht|].
        destruct (split NL s) as [|p ps] eqn:Hs;
          [by apply split_nonempty in Hs|].
        destruct i as [|i]; simpl.
        -- intros [= <-]. exists (c :: p). split; [done|].
           apply prefix_cons.
           destruct (IH k 0 p') as (line & [= <-] & Hpre); [by rewrite Ht | done].
        -- intros Hi. destruct (IH k (S i) line') as (line & Hline & Hpre);
             [by rewrite Ht|].
           by exists line.
Qed.

(** A text none of whose lines has the pattern keeps that when it is cut
    short. *)
Lemma take_no_pattern k s :
  Forall (λ line, is_console_stmt line = false) (split NL s) →
  Forall (λ line, is_console_stmt line = false) (split NL (take k s)).
Proof.
  rewrite !Forall_lookup. intros Hno i line' Hi.
  destruct (split_take_lookup _ _ _ _ Hi) as (line & Hline & [t ->]).
  specialize (Hno i _ Hline). simpl in Hno.
  destruct (is_console_stmt line') eqn:Hyes; [|done].
  unfold is_console_stmt in *.
  by rewrite (search_app_r _ _ t Hyes) in Hno.
Qed.

End Text.

Section OneCall.
Implicit Types (w : world) (file_path q : str) (f : file) (raw content : str).
Implicit Types (e : exn).

Lemma cleaned_lines_app (printed1 printed2 : list str) :
  cleaned_lines (printed1 ++ printed2) =
    cleaned_lines printed1 + cleaned_lines printed2.
Proof. unfold cleaned_lines. by rewrite filter_app, length_app. Qed.

Lemma pattern_line_changed content :
  Exists (λ line, is_console_stmt line = true) (split NL content) →
  (excise content).2 = true.
Proof.
  intros Hlt%excise_lines_shorter%fewer_lines_differ.
  unfold excise. simpl. by apply bool_decide_eq_true.
Qed.

(** A file whose text has nothing to excise: the call ends in the [else]
    branch, having only read. *)
Lemma remove_console_logs_unchanged file_path w f raw :
  fs w !! file_path = Some f → on_read f = inr raw →
  (excise (universal_newlines false raw)).2 = false →
  remove_console_logs file_path w = (inr false, w).
Proof.
  intros Hfs Hread Hsame.
  unfold remove_console_logs, try_except, try_block, mbind, M_bind, read_text.
  rewrite Hfs, Hread.
  destruct (excise (universal_newlines false raw)) as [new_content changed].
  simpl in Hsame. by subst changed.
Qed.

(** A file with something to excise, a write that goes through and a
    [print] that is taken. *)
Lemma remove_console_logs_written file_path w f raw :
  fs w !! file_path = Some f → on_read f = inr raw →
  on_write f = Written →
  (excise (universal_newlines false raw)).2 = true →
  accepts w (msg_cleaned file_path) →
  remove_console_logs file_path w =
    (inr true,
     with_line
       (with_fs w
          (<[file_path :=
               File (inr (excise (universal_newlines false raw)).1) Written]>
             (fs w)))
       (msg_cleaned file_path)).
Proof.
  intros Hfs Hread Hwrite Hchanged Hprint.
  unfold remove_console_logs, try_except, try_block, mbind, M_bind, read_text.
  rewrite Hfs, Hread.
  destruct (excise (universal_newlines false raw)) as [new_content changed].
  simpl in Hchanged. subst changed. unfold write_text. rewrite Hfs, Hwrite.
  unfold print. cbn [stdout_error stdout with_fs]. unfold accepts in Hprint.
  by rewrite Hprint.
Qed.

(** What a call can touch, whether it returns or raises: the file it is
    given and nothing else; it only adds to what has been printed, and
    it adds a line starting with the check mark exactly when it returns
    [True]. *)
Lemma remove_console_logs_frame file_path w :
  ∃ printed,
    stdout (remove_console_logs file_path w).2 = stdout w ++ printed ∧
    stdout_error (remove_console_logs file_path w).2 = stdout_error w ∧
    (∀ q, q ≠ file_path →
       fs (remove_console_logs file_path w).2 !! q = fs w !! q) ∧
    cleaned_lines printed =
      match (remove_console_logs file_path w).1 with
      | inr true => 1
      | _ => 0
      end.
Proof.
  assert (∀ (r : exn + bool) w',
            stdout w' = stdout w → stdout_error w' = stdout_error w →
            (∀ q, q ≠ file_path → fs w' !! q = fs w !! q) →
            r ≠ inr true →
            ∃ printed,
              stdout w' = stdout w ++ printed ∧
              stdout_error w' = stdout_error w ∧
              (∀ q, q ≠ file_path → fs w' !! q = fs w !! q) ∧
              cleaned_lines printed =
                match r with inr true => 1 | _ => 0 end) as Hquiet.
  { intros r w' Hout Herr Hfs Hr. exists []. rewrite app_nil_r.
    repeat (split; [done|]). by destruct r as [|[|]]. }
  assert (∀ e w',
            stdout w' = stdout w → stdout_error w' = stdout_error w →
            (∀ q, q ≠ file_path → fs w' !! q = fs w !! q) →
            ∃ printed,
              stdout (except_block file_path e w').2 = stdout w ++ printed ∧
              stdout_error (except_block file_path e w').2 = stdout_error w ∧
              (∀ q, q ≠ file_path →
                 fs (except_block file_path e w').2 !! q = fs w !! q) ∧
              cleaned_lines printed =
                match (except_block file_path e w').1 with
                | inr true => 1
                | _ => 0
                end) as Hhandler.
  { intros e w' Hout Herr Hfs.
    unfold except_block, mbind, M_bind, mret, M_ret, print.
    destruct (stdout_error w' (stdout w') (msg_error file_path e)).
    - by apply Hquiet.
    - exists [msg_error file_path e]. simpl. by rewrite Hout. }
  unfold remove_console_logs, try_except.
  unfold try_block, mbind, M_bind, mret, M_ret, read_text.
  destruct (fs w !! file_path) as [f|] eqn:Hfs; [|by apply Hhandler].
  destruct (on_read f) as [e|raw]; [by apply Hhandler|].
  destruct (excise (universal_newlines false raw)) as [new_content [|]];
    [|by apply Hquiet].
  unfold write_text. rewrite Hfs.
  destruct (on_write f) as [|e|e kept reread].
  - unfold print. cbn [fs stdout stdout_error with_fs].
    destruct (stdout_error w (stdout w) (msg_cleaned file_path)).
    + apply Hhandler; [done..|].
      intros q Hq. simpl. by rewrite lookup_insert_ne.
    + exists [msg_cleaned file_path]. simpl. repeat (split; [done|]).
      split; [|done]. intros q Hq. by rewrite lookup_insert_ne.
  - by apply Hhandler.
  - apply Hhandler; [done..|].
    intros q Hq. simpl. by rewrite lookup_insert_ne.
Qed.

(** On a standard output that takes every message no call raises, and
    after the call the path is settled. *)
Lemma remove_console_logs_reliable file_path w :
  stdout_reliable w →
  ∃ result w1,
    remove_console_logs file_path w = (inr result, w1) ∧
    stdout_reliable w1 ∧ settled w1 file_path.
Proof.
  intros Hrel.
  assert (∀ e w',
            stdout_error w' = stdout_error w → settled w' file_path →
            ∃ result w1,
              except_block file_path e w' = (inr result, w1) ∧
              stdout_reliable w1 ∧ settled w1 file_path) as Hhandler.
  { intros e w' Herr Hset.
    unfold except_block, mbind, M_bind, mret, M_ret, print.
    rewrite Herr, Hrel. eexists _, _. split; [done|]. split; [|done].
    unfold stdout_reliable. simpl. by rewrite Herr. }
  unfold remove_console_logs, try_except.
  unfold try_block, mbind, M_bind, mret, M_ret, read_text.
  destruct (fs w !! file_path) as [f|] eqn:Hfs.
  2: { apply Hhandler; [done|]. unfold settled. by rewrite Hfs. }
  destruct (on_read f) as [e|raw] eqn:Hread.
  { apply Hhandler; [done|]. unfold settled. by rewrite Hfs, Hread. }
  destruct (excise (universal_newlines false raw))
    as [new_content changed] eqn:Hex.
  destruct changed.
  2: { eexists _, _. split; [done|]. split; [done|].
       unfold settled. rewrite Hfs, Hread, Hex. by left. }
  assert (CR ∉ new_content) as Hcr.
  { replace new_content with (excise (universal_newlines false raw)).1
      by by rewrite Hex.
    apply excise_no_cr, universal_newlines_no_cr. }
  assert (Forall (λ line, is_console_stmt line = false) (split NL new_content))
    as Hclean.
  { replace new_content with (excise (universal_newlines false raw)).1
      by by rewrite Hex.
    apply excise_output_clean. }
  unfold write_text. rewrite Hfs.
  destruct (on_write f) as [|e|e kept reread] eqn:Hwrite.
  - unfold print. cbn [fs stdout stdout_error with_fs]. rewrite Hrel.
    eexists _, _. split; [done|]. split; [done|].
    unfold settled. cbn [fs with_fs with_line].
    rewrite lookup_insert_eq. cbn [on_read]. left.
    rewrite universal_newlines_id by done.
    by rewrite excise_no_pattern.
  - apply Hhandler; [done|].
    unfold settled. rewrite Hfs, Hread, Hex. right. by exists e.
  - apply Hhandler; [done|].
    unfold settled. cbn [fs with_fs with_line].
    rewrite lookup_insert_eq. cbn [on_read].
    destruct reread as [e'|]; cbn [cut]; [done|].
    left. rewrite universal_newlines_id by by apply take_no_cr.
    rewrite excise_no_pattern; [done|]. by apply take_no_pattern.
Qed.

(** A call on a settled path returns [False] and changes no file. *)
Lemma remove_console_logs_settled file_path w :
  stdout_reliable w → settled w file_path →
  ∃ w', remove_console_logs file_path w = (inr false, w') ∧ fs w' = fs w.
Proof.
  intros Hrel.
  assert (∀ e, ∃ w', except_block file_path e w = (inr false, w') ∧ fs w' = fs w)
    as Hhandler.
  { intros e. unfold except_block, mbind, M_bind, mret, M_ret, print.
    rewrite Hrel. by eexists. }
  unfold settled, remove_console_logs, try_except.
  unfold try_block, mbind, M_bind, mret, M_ret, read_text.
  destruct (fs w !! file_path) as [f|] eqn:Hfs; [|by intros _].
  destruct (on_read f) as [e|raw] eqn:Hread; [by intros _|].
  destruct (excise (universal_newlines false raw))
    as [new_content changed] eqn:Hex.
  simpl. intros [->|[e Hwrite]]; [by eexists|].
  destruct changed; [|by eexists].
  unfold write_text. rewrite Hfs, Hwrite. apply Hhandler.
Qed.

End OneCall.

(** X6. A file that can be read and none of whose lines has the pattern
    is left alone: the call returns [False], writes nothing and prints
    nothing, whether or not the file could be written or the standard
    output would take a message. The lines are those of the text as
    read, with its line endings translated. *)
Theorem remove_console_logs_no_pattern
    (file_path : str) (w : world) (f : file) (raw : str) :
  fs w !! file_path = Some f → on_read f = inr raw →
  Forall (λ line, is_console_stmt line = false)
    (split NL (universal_newlines false raw)) →
  remove_console_logs file_path w = (inr false, w).
Proof.
  intros Hfs Hread Hno. eapply remove_console_logs_unchanged; [done..|].
  by rewrite excise_no_pattern.
Qed.

Lemma remove_console_logs_no_pattern_witness :
  let raw := lit "a();" ++ CR :: NL :: lit "b();" in
  let read_only :=
    OpenFails (OSError (lit "[Errno 30] Read-only file system: 'a.ts'")) in
  let w := new_world {[ lit "a.ts" := File (inr raw) read_only ]} ascii_stdout in
  remove_console_logs (lit "a.ts") w = (inr false, w).
Proof.
  intros raw read_only w.
  apply (remove_console_logs_no_pattern _ _ (File (inr raw) read_only) raw).
  - reflexivity.
  - reflexivity.
  - vm_compute. repeat constructor.
Defined.

(** X7. A readable file with a pattern line, when the write goes through
    and the standard output takes the message, is rewritten to its
    excision: the call returns [True], prints the one "Cleaned" line, and
    reading the path afterwards gives the cleaned content. The content is
    the text as read, with its line endings translated. *)
Theorem remove_console_logs_cleans
    (file_path : str) (w : world) (f : file) (raw : str) :
  fs w !! file_path = Some f → on_read f = inr raw → on_write f = Written →
  accepts w (msg_cleaned file_path) →
  let content := universal_newlines false raw in
  Exists (λ line, is_console_stmt line = true) (split NL content) →
  ∃ w',
    remove_console_logs file_path w = (inr true, w') ∧
    stdout w' = stdout w ++ [msg_cleaned file_path] ∧
    read_text file_path w' = (inr (excise content).1, w') ∧
    (excise content).1 ≠ content.
Proof.
  intros Hfs Hread Hwrite Hprint content Hsome.
  assert ((excise content).2 = true) as Hchanged
    by by apply pattern_line_changed.
  eexists. split; [by eapply remove_console_logs_written|].
  split; [done|]. split.
  - unfold read_text. cbn [fs with_fs with_line].
    rewrite lookup_insert_eq. cbn [on_read].
    rewrite universal_newlines_id; [done|].
    apply excise_no_cr, universal_newlines_no_cr.
  - unfold excise in *. simpl in *. by apply bool_decide_eq_true in Hchanged.
Qed.

Lemma remove_console_logs_cleans_witness :
  let file_path := in_backend (lit "a.ts") in
  let content := lit "console.log(1);" ++ NL :: lit "a();" in
  ∃ w',
    remove_console_logs file_path isolation_example = (inr true, w') ∧
    stdout w' = stdout isolation_example ++ [msg_cleaned file_path] ∧
    read_text file_path w' = (inr (excise content).1, w') ∧
    (excise content).1 ≠ content.
Proof.
  intros file_path content.
  apply (remove_console_logs_cleans file_path isolation_example
           (File (inr content) Written) content).
  - reflexivity.
  - reflexivity.
  - reflexivity.
  - reflexivity.
  - vm_compute. constructor. reflexivity.
Defined.

(** X8. On a standard output that takes every message, whatever the
    first call on a path did, a second call on the same path returns
    [False] and leaves every file as the first call left it; this holds
    also when the first call's write failed part-way and cut the file
    short. *)
Theorem second_call_reports_no_change (file_path : str) (w : world) :
  stdout_reliable w →
  ∃ w2,
    remove_console_logs file_path (remove_console_logs file_path w).2
      = (inr false, w2) ∧
    fs w2 = fs (remove_console_logs file_path w).2.
Proof.
  intros Hrel.
  destruct (remove_console_logs_reliable file_path w Hrel)
    as (result & w1 & -> & Hrel1 & Hset).
  by apply remove_console_logs_settled.
Qed.

Lemma second_call_reports_no_change_witness :
  let file_path := in_backend (lit "a.ts") in
  ∃ w2,
    remove_console_logs file_path
        (remove_console_logs file_path lenient_example).2
      = (inr false, w2) ∧
    fs w2 = fs (remove_console_logs file_path lenient_example).2.
Proof.
  intros file_path.
  apply (second_call_reports_no_change file_path lenient_example).
  intros printed msg. reflexivity.
Defined.

(** X9. A call changes no file other than the one it is given, and only
    ever adds to what has been printed, whether it returns or raises. *)
Theorem other_paths_untouched (file_path q : str) (w : world) :
  q ≠ file_path →
  fs (remove_console_logs file_path w).2 !! q = fs w !! q ∧
  stdout w `prefix_of` stdout (remove_console_logs file_path w).2.
Proof.
  intros Hne.
  destruct (remove_console_logs_frame file_path w)
    as (printed & Hout & _ & Hfs & _).
  split; [by apply Hfs|]. rewrite Hout. by apply prefix_app_r.
Qed.

Lemma other_paths_untouched_witness :
  fs (remove_console_logs (in_backend (lit "a.ts")) isolation_example).2
      !! in_backend (lit "c.ts")
    = fs isolation_example !! in_backend (lit "c.ts") ∧
  stdout isolation_example
    `prefix_of`
      stdout (remove_console_logs (in_backend (lit "a.ts")) isolation_example).2.
Proof. apply other_paths_untouched. vm_compute. discriminate. Defined.

(** ** The whole run *)

Section WholeRun.
Implicit Types (w : world) (paths : list str) (results : list bool).

Lemma list_filter_nil_aux {A} (P : A → Prop) `{!∀ x, Decision (P x)} (l : list A) :
  (∀ x, x ∈ l → ¬ P x) → filter P l = [].
Proof.
  induction l as [|x l IH]; intros Hnot; [done|].
  rewrite filter_cons_False by (apply Hnot; left).
  apply IH. intros y Hy. apply Hnot. by right.
Qed.

(** [main] is the loop over its candidate paths, then the summary. *)
Lemma main_candidates path_exists os_walk w :
  main path_exists os_walk w =
    (files_cleaned ← for_each (candidates path_exists os_walk) clean_file 0;
     print (msg_complete files_cleaned)) w.
Proof. unfold main. apply M_bind_congr, count_cleaned_candidates. Qed.

Lemma for_each_clean_file_cons file_path paths files_cleaned w :
  for_each (file_path :: paths) clean_file files_cleaned w =
    match remove_console_logs file_path w with
    | (inr result, w1) =>
        for_each paths clean_file
          (if result : bool then files_cleaned + 1 else files_cleaned) w1
    | (inl e, w1) => (inl e, w1)
    end.
Proof.
  simpl. unfold mbind, M_bind, clean_file at 1, mbind, M_bind, mret, M_ret.
  by destruct (remove_console_logs file_path w) as [[e|result] w1].
Qed.

(** What the loop over the files can touch, whether it ends or raises:
    the files it is given; and when it ends, its count is the one it
    started from plus the number of lines it printed that start with the
    check mark. *)
Lemma for_each_clean_file_frame paths files_cleaned w :
  ∃ printed,
    stdout (for_each paths clean_file files_cleaned w).2 = stdout w ++ printed ∧
    (∀ q, q ∉ paths →
       fs (for_each paths clean_file files_cleaned w).2 !! q = fs w !! q) ∧
    ∀ n, (for_each paths clean_file files_cleaned w).1 = inr n →
         n = files_cleaned + cleaned_lines printed ∧
         n ≤ files_cleaned + length paths.
Proof.
  revert files_cleaned w.
  induction paths as [|file_path paths IH]; intros files_cleaned w.
  - exists []. simpl. rewrite app_nil_r. split; [done|]. split; [done|].
    intros n [= <-]. change (cleaned_lines []) with 0. lia.
  - rewrite for_each_clean_file_cons.
    destruct (remove_console_logs_frame file_path w)
      as (printed1 & Hout1 & _ & Hfs1 & Hcount1).
    destruct (remove_console_logs file_path w) as [[e|result] w1];
      cbn [fst snd] in *.
    + exists printed1. split; [done|]. split; [|done].
      intros q [Hq _]%not_elem_of_cons. by apply Hfs1.
    + destruct (IH (if result then files_cleaned + 1 else files_cleaned) w1)
        as (printed2 & Hout2 & Hfs2 & Hcount2).
      exists (printed1 ++ printed2). split; [|split].
      * by rewrite Hout2, Hout1, <- app_assoc.
      * intros q [Hq Hnot]%not_elem_of_cons. rewrite Hfs2 by done.
        by apply Hfs1.
      * intros n Hn. destruct (Hcount2 n Hn) as [-> Hle].
        rewrite cleaned_lines_app, Hcount1.
        split; destruct result; simpl in *; lia.
Qed.

(** On a standard output that takes every message the loop calls
    [remove_console_logs] on every path in turn and counts the [True]s. *)
Lemma for_each_clean_file paths files_cleaned w :
  stdout_reliable w →
  ∃ results w',
    runs paths w results w' ∧ stdout_reliable w' ∧
    for_each paths clean_file files_cleaned w =
      (inr (files_cleaned + count_true results), w').
Proof.
  revert files_cleaned w.
  induction paths as [|file_path paths IH]; intros files_cleaned w Hrel.
  - exists [], w. split; [constructor|]. split; [done|].
    simpl. unfold mret, M_ret. do 2 f_equal. unfold count_true. simpl. lia.
  - destruct (remove_console_logs_reliable file_path w Hrel)
      as (result & w1 & Hcall & Hrel1 & _).
    destruct (IH (if result then files_cleaned + 1 else files_cleaned) w1 Hrel1)
      as (results & w2 & Hruns & Hrel2 & Hloop).
    exists (result :: results), w2. split; [by econstructor|]. split; [done|].
    rewrite for_each_clean_file_cons, Hcall, Hloop.
    rewrite count_true_cons. do 2 f_equal. destruct result; lia.
Qed.

Lemma elem_of_candidates path_exists os_walk q :
  q ∈ candidates path_exists os_walk →
  ∃ directory root dirs files file,
    directory ∈ directories ∧ path_exists directory = true ∧
    (root, dirs, files) ∈ os_walk directory ∧ file ∈ files ∧
    (endswith file (lit ".ts") = true ∨ endswith file (lit ".tsx") = true) ∧
    q = path_join root file.
Proof.
  unfold candidates. intros Hin.
  apply list_elem_of_bind in Hin as (directory & Hin & [Hex Hdir]%list_elem_of_filter).
  apply list_elem_of_bind in Hin as ([[root dirs] files] & Hin & Hwalk).
  apply list_elem_of_bind in Hin as (file & Hin & [Hext Hfile]%list_elem_of_filter).
  apply list_elem_of_singleton in Hin as ->.
  exists directory, root, dirs, files, file.
  repeat (split; [done|]). split; [|done]. by apply orb_true_iff.
Qed.

End WholeRun.

(** X10. [main] changes only files it found, whether it ends or raises:
    a path whose file differs after the run is [os.path.join(root, file)]
    for a directory of the two that exists, a triple [(root, dirs, files)]
    that walking it yields, and a name in [files] ending in [.ts] or
    [.tsx]. *)
Theorem main_changes_only_candidates
    (path_exists : str → bool) (os_walk : str → list (str * list str * list str))
    (w : world) (q : str) :
  fs (main path_exists os_walk w).2 !! q ≠ fs w !! q →
  ∃ directory root dirs files file,
    directory ∈ directories ∧ path_exists directory = true ∧
    (root, dirs, files) ∈ os_walk directory ∧ file ∈ files ∧
    (endswith file (lit ".ts") = true ∨ endswith file (lit ".tsx") = true) ∧
    q = path_join root file.
Proof.
  intros Hdiff.
  destruct (decide (q ∈ candidates path_exists os_walk)) as [Hin|Hnot];
    [by apply elem_of_candidates|].
  exfalso. apply Hdiff. rewrite main_candidates. unfold mbind, M_bind.
  destruct (for_each_clean_file_frame (candidates path_exists os_walk) 0 w)
    as (printed & _ & Hfs & _).
  specialize (Hfs q Hnot).
  destruct (for_each (candidates path_exists os_walk) clean_file 0 w)
    as [[e|files_cleaned] w1]; [done|].
  unfold print. by destruct (stdout_error w1 (stdout w1) _).
Qed.

Lemma main_changes_only_candidates_witness :
  let os_walk := λ directory : str,
    [(directory, [lit "models"], [lit "a.ts"; lit "notes.md"])] in
  ∃ directory root dirs files file,
    directory ∈ directories ∧ only_backend directory = true ∧
    (root, dirs, files) ∈ os_walk directory ∧ file ∈ files ∧
    (endswith file (lit ".ts") = true ∨ endswith file (lit ".tsx") = true) ∧
    in_backend (lit "a.ts") = path_join root file.
Proof.
  intros os_walk.
  apply (main_changes_only_candidates only_backend os_walk isolation_example).
  vm_compute. discriminate.
Defined.

(** X11. When neither of the two directories exists, nothing is walked:
    [main] changes no file and prints the summary line, with the count
    0, and nothing else, provided the standard output takes that line. *)
Theorem main_no_directory
    (path_exists : str → bool) (os_walk : str → list (str * list str * list str))
    (w : world) :
  (∀ directory, directory ∈ directories → path_exists directory = false) →
  accepts w (msg_complete 0) →
  main path_exists os_walk w = (inr (), with_line w (msg_complete 0)).
Proof.
  intros Hnone Hprint. rewrite main_candidates.
  assert (candidates path_exists os_walk = []) as ->.
  { unfold candidates.
    assert (filter (λ directory, path_exists directory = true) directories = [])
      as ->; [|done].
    apply list_filter_nil_aux. intros directory Hin.
    by rewrite (Hnone directory Hin). }
  simpl. unfold mbind, M_bind, mret, M_ret, print.
  unfold accepts in Hprint. by rewrite Hprint.
Qed.

Lemma main_no_directory_witness :
  main (λ _, false) (λ _, []) isolation_example =
    (inr (), with_line isolation_example (msg_complete 0)).
Proof.
  apply main_no_directory.
  - intros directory _. reflexivity.
  - reflexivity.
Defined.

(** X12. In every run of [main] that ends without raising, the summary
    is the last line printed, and the number it shows is the number of
    "Cleaned" lines printed during the run, which is no more than the
    number of files handed to [remove_console_logs]. *)
Theorem main_summary_count
    (path_exists : str → bool) (os_walk : str → list (str * list str * list str))
    (w : world) :
  (main path_exists os_walk w).1 = inr () →
  ∃ files_cleaned printed,
    stdout (main path_exists os_walk w).2 =
      stdout w ++ printed ++ [msg_complete files_cleaned] ∧
    files_cleaned = length (filter (λ msg, head msg = Some 0x2705%N) printed) ∧
    files_cleaned ≤ length (candidates path_exists os_walk).
Proof.
  rewrite main_candidates. unfold mbind, M_bind.
  destruct (for_each_clean_file_frame (candidates path_exists os_walk) 0 w)
    as (printed & Hout & _ & Hcount).
  destruct (for_each (candidates path_exists os_walk) clean_file 0 w)
    as [[e|files_cleaned] w1]; [done|].
  cbn [fst snd] in *. destruct (Hcount files_cleaned eq_refl) as [Hn Hle].
  unfold print. destruct (stdout_error w1 (stdout w1) _); [done|].
  intros _. exists files_cleaned, printed. cbn [snd stdout with_line].
  split; [by rewrite Hout, <- app_assoc|]. split; [done | lia].
Qed.

Lemma main_summary_count_witness :
  let os_walk := walk_flat [lit "a.ts"; lit "b.ts"; lit "c.ts"] in
  ∃ files_cleaned printed,
    stdout (main only_backend os_walk isolation_example).2 =
      stdout isolation_example ++ printed ++ [msg_complete files_cleaned] ∧
    files_cleaned = length (filter (λ msg, head msg = Some 0x2705%N) printed) ∧
    files_cleaned ≤ length (candidates only_backend os_walk).
Proof.
  intros os_walk.
  apply (main_summary_count only_backend os_walk isolation_example).
  vm_compute. reflexivity.
Defined.

(** X19. On a standard output that takes every message, a failure on one
    file does not stop the run. An error raised in the [try] block of
    [remove_console_logs], while the file is read or written, is caught:
    the call returns [False] and prints one line. The loop over the
    files then calls [remove_console_logs] on every path in turn, each in
    the world the previous calls left, and ends with the count it
    started from plus the number of calls that returned [True]; [main] is
    that loop over its candidate paths, starting from zero, followed by
    the summary line. *)
Theorem failures_isolated_on_reliable_stdout (w : world) :
  stdout_reliable w →
  (∀ file_path e w1,
     try_block file_path w = (inl e, w1) →
     remove_console_logs file_path w =
       (inr false, with_line w1 (msg_error file_path e)) ∧
     ∃ s1 s2, msg_error file_path e = s1 ++ file_path ++ s2) ∧
  (∀ paths files_cleaned,
     ∃ results w',
       runs paths w results w' ∧
       for_each paths clean_file files_cleaned w =
         (inr (files_cleaned + count_true results), w')) ∧
  (∀ path_exists os_walk,
     ∃ results w',
       runs (candidates path_exists os_walk) w results w' ∧
       main path_exists os_walk w =
         (inr (), with_line w' (msg_complete (count_true results)))).
Proof.
  intros Hrel. split; [|split].
  - intros file_path e w1 Htry. split.
    + pose proof (remove_console_logs_reliable file_path w Hrel)
        as (result & w1' & Hcall & _).
      revert Hcall. unfold remove_console_logs, try_except. rewrite Htry.
      unfold except_block, mbind, M_bind, mret, M_ret, print.
      by destruct (stdout_error w1 (stdout w1) (msg_error file_path e)).
    + by exists ([0x274C%N] ++ lit " Error processing "), (lit ": " ++ exn_str e).
  - intros paths files_cleaned.
    destruct (for_each_clean_file paths files_cleaned w Hrel)
      as (results & w' & Hruns & _ & Hloop).
    by exists results, w'.
  - intros path_exists os_walk.
    destruct (for_each_clean_file (candidates path_exists os_walk) 0 w Hrel)
      as (results & w' & Hruns & Hrel' & Hloop).
    exists results, w'. split; [done|].
    rewrite main_candidates. unfold mbind, M_bind. rewrite Hloop.
    unfold print. by rewrite Hrel'.
Qed.

Lemma failures_isolated_on_reliable_stdout_witness :
  let file_path := in_backend (lit "b.ts") in
  let e := OSError (lit "[Errno 13] Permission denied: " ++ plain_repr file_path) in
  remove_console_logs file_path lenient_example =
    (inr false, with_line lenient_example (msg_error file_path e)) ∧
  ∃ s1 s2, msg_error file_path e = s1 ++ file_path ++ s2.
Proof.
  intros file_path e.
  apply (proj1 (failures_isolated_on_reliable_stdout lenient_example
                  (λ printed msg, eq_refl)) file_path e lenient_example).
  reflexivity.
Defined.
(** ** The extraction script *)

Import ExtractRun.

Section Extraction.
Implicit Types (lines : list str) (s content : str) (w : world).

(** Writing the lines read gives back the text read. *)
Lemma concat_readlines s : concat (readlines s) = s.
Proof.
  induction s as [|c s IH]; simpl; [done|].
  case_bool_decide as Hc.
  - subst c. simpl. by rewrite IH.
  - destruct (readlines s) as [|line lines]; simpl in *; by rewrite <- IH.
Qed.

Lemma new_lines_take_drop lines :
  new_lines lines = take 77 lines ++ [delegation] ++ drop 783 lines.
Proof.
  unfold new_lines, splice, slice_from, slice.
  rewrite drop_0, Nat.sub_0_r. do 2 f_equal.
  apply take_ge. by rewrite length_drop.
Qed.

Lemma new_lines_length lines :
  length (new_lines lines) = min 77 (length lines) + 1 + (length lines - 783).
Proof.
  rewrite new_lines_take_drop, !length_app, length_take, length_drop. simpl. lia.
Qed.

End Extraction.

(** X13. The two bounds are clamped to the file, so the splice never
    fails: a file of at most 77 lines only has the delegation appended
    (one line more, nothing removed), a file of 77 to 783 lines keeps its
    first 77 lines and ends with the delegation, and a file of at least
    783 lines comes out 705 lines shorter. *)
Theorem new_lines_clamped (lines : list str) :
  length (new_lines lines) = min 77 (length lines) + 1 + (length lines - 783) ∧
  (length lines ≤ 77 → new_lines lines = lines ++ [delegation]) ∧
  (77 ≤ length lines ≤ 783 → new_lines lines = take 77 lines ++ [delegation]) ∧
  (783 ≤ length lines → length (new_lines lines) + 705 = length lines).
Proof.
  split; [apply new_lines_length|]. split; [|split].
  - intros Hlen. rewrite new_lines_take_drop.
    by rewrite take_ge, drop_ge by lia.
  - intros Hlen. rewrite new_lines_take_drop. by rewrite drop_ge by lia.
  - intros Hlen. rewrite new_lines_length. lia.
Qed.

Lemma new_lines_clamped_witness :
  new_lines [lit "a"; lit "b"] = [lit "a"; lit "b"] ++ [delegation] ∧
  new_lines (replicate 100 (lit "x")) = take 77 (replicate 100 (lit "x")) ++ [delegation] ∧
  length (new_lines (replicate 800 (lit "x"))) + 705 = length (replicate 800 (lit "x")).
Proof.
  split; [|split].
  - apply (proj1 (proj2 (new_lines_clamped [lit "a"; lit "b"]))). simpl. lia.
  - apply (proj1 (proj2 (proj2 (new_lines_clamped (replicate 100 (lit "x")))))).
    rewrite length_replicate. lia.
  - apply (proj2 (proj2 (proj2 (new_lines_clamped (replicate 800 (lit "x")))))).
    rewrite length_replicate. lia.
Defined.

(** X14. In a file of at least 783 lines, line by line: the first 77
    lines stay where they are, the delegation is the 78th element, and
    every later element is the input line 705 places further down; the
    input lines 78 to 783 are the ones that go. *)
Theorem new_lines_lookup (lines : list str) (k : nat) :
  783 ≤ length lines →
  new_lines lines !! k =
    if decide (k < 77) then lines !! k
    else if decide (k = 77) then Some delegation
    else lines !! (k + 705).
Proof.
  intros Hlen. rewrite new_lines_take_drop.
  assert (length (take 77 lines) = 77) as Htake by (rewrite length_take; lia).
  destruct (decide (k < 77)) as [Hk|Hk].
  - rewrite lookup_app_l by lia. by apply lookup_take_lt.
  - rewrite lookup_app_r by lia. rewrite Htake.
    destruct (decide (k = 77)) as [->|Hne]; [done|].
    replace (k - 77) with (S (k - 78)) by lia. simpl.
    rewrite lookup_drop. f_equal. lia.
Qed.

Lemma new_lines_lookup_witness :
  new_lines ((λ n, [N.of_nat n]) <$> seq 0 800) !! 78 = Some [783%N].
Proof.
  rewrite (new_lines_lookup ((λ n, [N.of_nat n]) <$> seq 0 800) 78).
  - reflexivity.
  - rewrite length_fmap, length_seq. lia.
Defined.


(** ** The extraction script, run *)

Section ScriptRun.
Implicit Types (lines bodies : list str) (s t body content raw : str).
Implicit Types (w : world) (f : file).

Lemma readlines_line body s :
  NL ∉ body → readlines (body ++ NL :: s) = (body ++ [NL]) :: readlines s.
Proof.
  induction body as [|c body IH]; simpl.
  - done.
  - intros [Hc Hno]%not_elem_of_cons.
    rewrite bool_decide_eq_false_2 by congruence. by rewrite IH.
Qed.

(** Text made of complete lines, followed by more text, reads as those
    lines followed by the lines of the rest. *)
Lemma readlines_complete bodies t :
  Forall (λ body, NL ∉ body) bodies →
  readlines (concat ((λ body, body ++ [NL]) <$> bodies) ++ t) =
    ((λ body, body ++ [NL]) <$> bodies) ++ readlines t.
Proof.
  induction 1 as [|body bodies Hbody _ IH]; [done|].
  rewrite fmap_cons. cbn [concat]. rewrite <- !app_assoc.
  change ([NL] ++ ?rest) with (NL :: rest).
  by rewrite readlines_line, IH.
Qed.

(** Every line read but the last is a complete line: the first [k]
    lines, when there are more than [k], read back as themselves
    whatever text follows them. *)
Lemma readlines_take_app s k t :
  k < length (readlines s) →
  readlines (concat (take k (readlines s)) ++ t) =
    take k (readlines s) ++ readlines t.
Proof.
  revert k. induction s as [|c s IH]; intros k; simpl; [lia|].
  case_bool_decide as Hc.
  - destruct k as [|k]; [done|]. simpl. intros Hk.
    rewrite IH by lia. done.
  - destruct (readlines s) as [|line lines] eqn:Hs.
    + destruct k as [|k]; [done | simpl; lia].
    + destruct k as [|k]; [done|]. simpl. intros Hk.
      specialize (IH (S k) ltac:(simpl; lia)). simpl in IH.
      rewrite IH. by rewrite bool_decide_eq_false_2.
Qed.

(** The lines from the [k]-th on read back as themselves. *)
Lemma readlines_drop s k :
  readlines (concat (drop k (readlines s))) = drop k (readlines s).
Proof.
  destruct (decide (k < length (readlines s))) as [Hk|Hk].
  - pose proof (readlines_take_app s k (concat (drop k (readlines s))) Hk) as Heq.
    rewrite <- concat_app, take_drop, concat_readlines in Heq.
    rewrite <- (take_drop k (readlines s)) in Heq at 1.
    by apply app_inv_head in Heq.
  - by rewrite drop_ge by lia.
Qed.

Lemma readlines_nonempty s : Forall (λ line, line ≠ []) (readlines s).
Proof.
  induction s as [|c s IH]; simpl; [constructor|].
  case_bool_decide.
  - by constructor.
  - destruct (readlines s) as [|line lines]; [by repeat constructor|].
    apply Forall_cons in IH as [_ IH]. by constructor.
Qed.

(** The delegation reads as eleven lines. *)
Lemma readlines_delegation t :
  ∃ block : list str, length block = 11 ∧ concat block = delegation ∧
           readlines (delegation ++ t) = block ++ readlines t.
Proof.
  unfold delegation. eexists. split; [|split; [reflexivity|]].
  2: { apply readlines_complete.
       repeat (constructor; [by apply (bool_decide_unpack _); vm_compute|]).
       constructor. }
  done.
Qed.

Lemma delegation_no_cr : CR ∉ delegation.
Proof. by apply (bool_decide_unpack _); vm_compute. Qed.

Lemma concat_new_lines lines :
  concat (new_lines lines) =
    concat (take 77 lines) ++ delegation ++ concat (drop 783 lines).
Proof.
  rewrite new_lines_take_drop, !concat_app.
  change (concat [delegation]) with (delegation ++ []).
  by rewrite app_nil_r.
Qed.

(** The text written has no carriage return. *)
Lemma new_text_no_cr content :
  CR ∉ content → CR ∉ concat (new_lines (readlines content)).
Proof.
  intros Hno. rewrite concat_new_lines.
  set (lines := readlines content).
  assert (CR ∉ concat lines) as Hlines
    by (unfold lines; by rewrite concat_readlines).
  rewrite !not_elem_of_app. split; [|split].
  - rewrite <- (take_drop 77 lines), concat_app, not_elem_of_app in Hlines.
    tauto.
  - apply delegation_no_cr.
  - rewrite <- (take_drop 783 lines), concat_app, not_elem_of_app in Hlines.
    tauto.
Qed.

(** The run when the file can be read and written and every message is
    taken. *)
Lemma script_succeeds w f raw :
  fs w !! controller_path = Some f → on_read f = inr raw →
  on_write f = Written → stdout_reliable w →
  let lines := readlines (universal_newlines false raw) in
  script w =
    (inr (),
     with_line (with_line (with_line (with_line
       (with_fs w
          (<[controller_path := File (inr (concat (new_lines lines))) Written]>
             (fs w)))
       msg_replaced)
       (msg_original (length lines)))
       (msg_new (length (new_lines lines))))
       (msg_saved (Z.of_nat (length lines)
                   - Z.of_nat (length (new_lines lines))))).
Proof.
  intros Hfs Hread Hwrite Hrel lines.
  unfold script, mbind, M_bind, read_text. rewrite Hfs, Hread. fold lines.
  unfold write_text. rewrite Hfs, Hwrite.
  unfold print. cbn [stdout_error stdout fs with_fs with_line].
  unfold stdout_reliable in Hrel.
  by repeat (rewrite Hrel; cbn [stdout_error stdout fs with_fs with_line]).
Qed.

(** What a second run reads and writes, for a file of at least 78
    lines. *)
Lemma second_text content :
  CR ∉ content →
  let lines := readlines content in
  78 ≤ length lines →
  concat (new_lines (readlines
            (universal_newlines false (concat (new_lines lines))))) =
    concat (take 77 lines) ++ delegation
      ++ concat (drop 695 (drop 783 lines)).
Proof.
  intros Hcr lines Hlen. subst lines.
  rewrite universal_newlines_id by by apply new_text_no_cr.
  destruct (readlines_delegation (concat (drop 783 (readlines content))))
    as (block & Hblock & _ & Hdelegation).
  assert (readlines (concat (new_lines (readlines content)))
          = take 77 (readlines content) ++ block
              ++ drop 783 (readlines content)) as ->.
  { rewrite concat_new_lines, readlines_take_app by lia.
    by rewrite Hdelegation, readlines_drop. }
  rewrite concat_new_lines.
  assert (length (take 77 (readlines content)) = 77) as Htake
    by (rewrite length_take; lia).
  rewrite take_app_length' by done.
  do 3 f_equal.
  rewrite drop_app_ge by (rewrite Htake; lia). rewrite Htake.
  rewrite drop_app_ge by (rewrite Hblock; lia). by rewrite Hblock.
Qed.

End ScriptRun.

(** X15. For a controller file of at least 78 lines that can be read and
    written, on a standard output that takes every message, a second run
    of the script also ends without raising, and it leaves the file as
    the first run wrote it exactly when the file had at most 783 lines
    at the start; for a longer file the second run removes lines again.
    The second run reads the delegation back as eleven lines. *)
Theorem script_second_run (w : world) (f : file) (raw : str) :
  fs w !! controller_path = Some f → on_read f = inr raw →
  on_write f = Written → stdout_reliable w →
  let lines := readlines (universal_newlines false raw) in
  78 ≤ length lines →
  let w1 := (script w).2 in
  (script w1).1 = inr () ∧
  (fs (script w1).2 !! controller_path = fs w1 !! controller_path
   ↔ length lines ≤ 783).
Proof.
  intros Hfs Hread Hwrite Hrel lines Hlen w1.
  pose proof (script_succeeds w f raw Hfs Hread Hwrite Hrel) as Hrun1.
  cbv zeta in Hrun1. fold lines in Hrun1.
  assert (fs w1 !! controller_path
          = Some (File (inr (concat (new_lines lines))) Written)) as Hfs1.
  { unfold w1. rewrite Hrun1. cbn [snd fs with_fs with_line].
    by rewrite lookup_insert_eq. }
  assert (stdout_reliable w1) as Hrel1.
  { unfold w1. rewrite Hrun1. exact Hrel. }
  pose proof (script_succeeds w1 _ _ Hfs1 eq_refl eq_refl Hrel1) as Hrun2.
  cbv zeta in Hrun2. rewrite Hrun2. split; [done|].
  cbn [snd fs with_fs with_line]. rewrite lookup_insert_eq, Hfs1.
  unfold lines. rewrite second_text; [|apply universal_newlines_no_cr | done].
  fold lines. rewrite concat_new_lines.
  generalize delegation. intros block. split.
  - intros [= Heq]. do 2 apply app_inv_head in Heq.
    destruct (decide (length lines ≤ 783)) as [|Hlong]; [done|]. exfalso.
    apply (f_equal length) in Heq.
    rewrite <- (take_drop 695 (drop 783 lines)) in Heq at 2.
    rewrite concat_app, length_app in Heq.
    destruct (drop 783 lines) as [|line rest] eqn:Hdrop.
    { apply (f_equal length) in Hdrop. rewrite length_drop in Hdrop.
      simpl in Hdrop. lia. }
    assert (line ≠ []) as Hline.
    { pose proof (readlines_nonempty (universal_newlines false raw)) as Hall.
      fold lines in Hall. rewrite Forall_forall in Hall. apply Hall.
      apply (elem_of_sublist (line :: rest)); [left|].
      rewrite <- Hdrop. apply sublist_drop. }
    simpl in Heq. rewrite length_app in Heq.
    destruct line; [done | simpl in Heq; lia].
  - intros Hle. by rewrite !drop_ge by (rewrite ?length_drop; lia).
Qed.

Lemma script_second_run_witness :
  let raw := concat (replicate 100 (lit "x" ++ [NL])) in
  let w := new_world {[ controller_path := File (inr raw) Written ]}
             lenient_stdout in
  let lines := readlines (universal_newlines false raw) in
  let w1 := (script w).2 in
  (script w1).1 = inr () ∧
  (fs (script w1).2 !! controller_path = fs w1 !! controller_path
   ↔ length lines ≤ 783).
Proof.
  intros raw w.
  apply (script_second_run w (File (inr raw) Written) raw).
  - reflexivity.
  - reflexivity.
  - reflexivity.
  - intros printed msg. reflexivity.
  - vm_compute. lia.
Defined.

(** X16. When the controller file can be read and written and the
    standard output takes every message, the script keeps the text of
    the first 77 lines and of everything from line 784 on character for
    character, as that text was read, that is with its line endings
    translated to newlines, and puts the delegation text in place of
    what lay between. The file written holds no carriage return, so a
    file with CRLF line endings is written back with LF endings. The
    script then prints four lines, the counts being those of the lines
    read and of the elements written. *)
Theorem script_rewrites (w : world) (f : file) (raw : str) :
  fs w !! controller_path = Some f → on_read f = inr raw →
  on_write f = Written → stdout_reliable w →
  let content := universal_newlines false raw in
  let lines := readlines content in
  ∃ pre mid post,
    content = pre ++ mid ++ post ∧
    pre = concat (take 77 lines) ∧ post = concat (drop 783 lines) ∧
    (CR ∉ pre ++ delegation ++ post) ∧
    (script w).1 = inr () ∧
    fs (script w).2 =
      <[controller_path := File (inr (pre ++ delegation ++ post)) Written]>
        (fs w) ∧
    stdout (script w).2 =
      stdout w ++
        [ msg_replaced;
          msg_original (length lines);
          msg_new (length (new_lines lines));
          msg_saved (Z.of_nat (length lines)
                     - Z.of_nat (length (new_lines lines))) ].
Proof.
  intros Hfs Hread Hwrite Hrel content lines.
  exists (concat (take 77 lines)), (concat (take 706 (drop 77 lines))),
    (concat (drop 783 lines)).
  split; [|split; [done|split; [done|]]].
  - rewrite <- !concat_app.
    replace (drop 783 lines) with (drop 706 (drop 77 lines))
      by by rewrite drop_drop.
    rewrite !take_drop. unfold lines. by rewrite concat_readlines.
  - rewrite <- concat_new_lines. split.
    { apply new_text_no_cr, universal_newlines_no_cr. }
    rewrite (script_succeeds w f raw Hfs Hread Hwrite Hrel).
    cbn [fst snd fs stdout with_fs with_line]. fold content. fold lines.
    split; [done|]. split; [done|]. by rewrite <- !app_assoc.
Qed.

Lemma script_rewrites_witness :
  let raw := lit "a" ++ CR :: NL :: lit "b" in
  let w := new_world {[ controller_path := File (inr raw) Written ]}
             lenient_stdout in
  let content := universal_newlines false raw in
  let lines := readlines content in
  ∃ pre mid post,
    content = pre ++ mid ++ post ∧
    pre = concat (take 77 lines) ∧ post = concat (drop 783 lines) ∧
    (CR ∉ pre ++ delegation ++ post) ∧
    (script w).1 = inr () ∧
    fs (script w).2 =
      <[controller_path := File (inr (pre ++ delegation ++ post)) Written]>
        (fs w) ∧
    stdout (script w).2 =
      stdout w ++
        [ msg_replaced;
          msg_original (length lines);
          msg_new (length (new_lines lines));
          msg_saved (Z.of_nat (length lines)
                     - Z.of_nat (length (new_lines lines))) ].
Proof.
  intros raw w.
  apply (script_rewrites w (File (inr raw) Written) raw).
  - reflexivity.
  - reflexivity.
  - reflexivity.
  - intros printed msg. reflexivity.
Defined.

(** X17. The script prints only after the file has been written in full:
    in every run that prints anything, whether it then ends or raises,
    the controller file could be read and written and holds the
    complete new text. A run that fails to read or to write prints
    nothing. *)
Theorem script_prints_after_writing (w : world) :
  stdout (script w).2 ≠ stdout w →
  ∃ f raw,
    fs w !! controller_path = Some f ∧ on_read f = inr raw ∧
    on_write f = Written ∧
    fs (script w).2 =
      <[controller_path :=
          File (inr (concat (new_lines
                       (readlines (universal_newlines false raw))))) Written]>
        (fs w).
Proof.
  unfold script, mbind, M_bind, read_text.
  destruct (fs w !! controller_path) as [f|] eqn:Hfs; [|done].
  destruct (on_read f) as [e|raw] eqn:Hread; [done|].
  unfold write_text. rewrite Hfs.
  destruct (on_write f) as [|e|e kept reread] eqn:Hwrite; [|done..].
  intros _. exists f, raw. repeat (split; [done|]).
  unfold print. cbn [stdout_error stdout fs with_fs with_line].
  repeat (match goal with
          | |- context [stdout_error w ?printed ?msg] =>
              destruct (stdout_error w printed msg)
          end; cbn [stdout_error stdout fs with_fs with_line snd]; try done).
Qed.

Lemma script_prints_after_writing_witness :
  let raw := lit "a" ++ NL :: lit "b" in
  let w := new_world {[ controller_path := File (inr raw) Written ]}
             utf8_stdout in
  ∃ f raw,
    fs w !! controller_path = Some f ∧ on_read f = inr raw ∧
    on_write f = Written ∧
    fs (script w).2 =
      <[controller_path :=
          File (inr (concat (new_lines
                       (readlines (universal_newlines false raw))))) Written]>
        (fs w).
Proof.
  intros raw w. apply (script_prints_after_writing w).
  vm_compute. discriminate.
Defined.
(** X18. When every line with the pattern closes on itself (its own
    balance is zero or less), the output is the input without exactly
    those lines: nothing else goes and the order is kept. *)
Theorem single_line_statements_filtered (lines : list str) :
  Forall (λ line, is_console_stmt line = true → (paren_delta line ≤ 0)%Z) lines →
  excise_lines lines = filter (λ line, is_console_stmt line = false) lines.
Proof.
  induction 1 as [|line lines Hline _ IH]; [apply excise_lines_nil|].
  destruct (is_console_stmt line) eqn:Hm.
  - rewrite excise_lines_drop_one by auto.
    rewrite filter_cons_False by (by rewrite Hm). done.
  - rewrite excise_lines_keep by done.
    rewrite filter_cons_True by done. by rewrite IH.
Qed.

Lemma single_line_statements_filtered_witness :
  excise_lines single_line_example
    = filter (λ line, is_console_stmt line = false) single_line_example.
Proof.
  apply single_line_statements_filtered.
  repeat constructor; vm_compute; intros; discriminate.
Defined.
